(** * cobalt API gateway ([src/core/api.js]): request gating and dispatch

    A shallow embedding of the route handlers and middleware that
    [runAPI] installs, with the external collaborators ([verifyStream],
    [stream], [getInternalStream], [JSON.parse], ...) taken as section
    variables.  A handler is a computation that appends to a trace of
    observable events (collaborator calls and actions on [res]) and
    either returns or throws. *)

From Stdlib Require Import ZArith Lia Ascii.
From stdpp Require Import gmap strings list pretty.

Open Scope string_scope.
Open Scope list_scope.
Open Scope nat_scope.
Open Scope stdpp_scope.
Set Warnings "-register-all,-notation-for-abbreviation".
Set Default Proof Using "Type".

(** ** JavaScript values that reach the gateway *)

(** A property of [req.query].  The query-string parser yields a string,
    an array ([id=a&id=b]) or a nested object ([id[k]=v]); a parameter
    that is absent reads as [undefined].  One character of a [string]
    stands for one code unit of the JavaScript string. *)
Inductive qval :=
| QUndefined
| QStr (s : string)
| QArr (l : list qval)
| QObj (o : list (string * qval)).

(** [String(v)].  An array is joined with commas, an [undefined] element
    contributing the empty string; a plain object prints as
    [[object Object]]. *)
Fixpoint JsString (v : qval) : string :=
  match v with
  | QUndefined => "undefined"
  | QStr s => s
  | QArr l =>
      (fix join (l : list qval) : string :=
         match l with
         | [] => ""
         | x :: rest =>
             let e := match x with QUndefined => "" | _ => JsString x end in
             match rest with
             | [] => e
             | _ :: _ => e +:+ "," +:+ join rest
             end
         end) l
  | QObj _ => "[object Object]"
  end.

(** [ToBoolean] on a query value and on a string. *)
Definition qtruthy (v : qval) : bool :=
  match v with
  | QUndefined => false
  | QStr s => negb (String.eqb s "")
  | QArr _ | QObj _ => true
  end.

Definition truthy (s : string) : bool := negb (String.eqb s "").

(** [String(req.header(name))]: a missing header reads as [undefined]. *)
Definition JsStringOpt (h : option string) : string :=
  match h with
  | Some s => s
  | None => "undefined"
  end.

(** [s.endsWith(suffix)]: compare the last [length suffix] code units. *)
Definition endsWith (s suffix : string) : bool :=
  let len := String.length s in
  let searchLength := String.length suffix in
  if (len <? searchLength)%nat then false
  else String.eqb (String.substring (len - searchLength) searchLength s) suffix.

(** The object handed between [verifyStream] / [getInternalStream] and
    [stream].  A field that the object lacks is [None]; [params] holds
    the fields the gateway never reads. *)
Record streamInfo := {
  service : option string;
  status : option Z;
  type : option string;
  headers : option (gmap string string);
  params : list (string * string)
}.

(** A JSON response body: an object with text fields. *)
Definition json := list (string * string).

(** The mount point a request path resolves to. *)
Inductive route := ApiJson | ApiStream | ApiOnDemand | ApiIstream | OtherRoute.

Record request := {
  route_of : route;
  ip : string;                       (* req.ip *)
  query : gmap string qval;          (* req.query *)
  req_headers : gmap string string   (* req.headers *)
}.

(** [req.query.name] *)
Definition query_get (req : request) (name : string) : qval :=
  default QUndefined (query req !! name).

(** [req.header(name)], the map being keyed by the names the code asks
    for *)
Definition header (req : request) (name : string) : option string :=
  req_headers req !! name.

(** ** Traces and exceptions *)

Inductive event :=
| CallVerifyStream (id sig exp sec iv : string)
| CallStream (info : option streamInfo)
| CallGetInternalStream (id : qval)
| CallJSONParse (buf : list Byte.byte)   (* JSON.parse(buf) in the verify hook *)
| CallBodyDecode (buf : list Byte.byte)  (* the body parser decoding the body *)
| ResSendStatus (code : option Z)       (* res.sendStatus(code) *)
| ResStatusJson (code : Z) (body : json) (* res.status(code).json(body) *)
| ResDestroy.                           (* res.destroy() *)

Inductive outcome (A : Type) :=
| Returns (a : A)
| Throws.
Arguments Returns {A} a.
Arguments Throws {A}.

Definition M (A : Type) : Type := list event * outcome A.

#[global] Instance M_ret : MRet M := λ A a, ([], Returns a).

#[global] Instance M_bind : MBind M := λ A B k m,
  match m with
  | (t, Returns a) => let '(t', r) := k a in (t ++ t', r)
  | (t, Throws) => (t, Throws)
  end.

Definition throw {A} : M A := ([], Throws).

(** [try { body } catch { handler }] *)
Definition try_catch {A} (body handler : M A) : M A :=
  match body with
  | (t, Returns a) => (t, Returns a)
  | (t, Throws) => let '(t', r) := handler in (t ++ t', r)
  end.

(** Calling a collaborator records the call, then returns or throws as
    the collaborator does. *)
Definition call {A} (e : event) (r : outcome A) : M A := ([e], r).

Definition emit (e : event) : M unit := ([e], Returns tt).

(** A status that can be written on the wire: an integer from 100 to
    999.  With any other value, an absent one included, setting the
    status throws and nothing is sent. *)
Definition status_valid (code : option Z) : bool :=
  match code with
  | Some c => (100 <=? c)%Z && (c <=? 999)%Z
  | None => false
  end.

(** [res.sendStatus(code)] *)
Definition res_sendStatus (code : option Z) : M unit :=
  if status_valid code then emit (ResSendStatus code) else throw.

(** [res.status(code).json(body)] with a status in range: the literals
    200, 400 and 429, and the status that [createResponse] gives. *)
Definition res_status_json (code : Z) (body : json) : M unit :=
  emit (ResStatusJson code body).

(** [res.status(code).json(body)] with a status computed by a
    collaborator: out of range, the call throws. *)
Definition res_status_json_checked (code : Z) (body : json) : M unit :=
  if status_valid (Some code) then res_status_json code body else throw.

(** The text that [res.sendStatus(code)] passes on as the body of the
    response: [statuses.message[code] || String(code)], for the table
    [message] of registered status texts.  ([res.send] leaves a body out
    only for a HEAD request and for the statuses 204, 205 and 304.) *)
Definition sendStatus_body (message : Z → option string) (code : Z) : string :=
  match message code with
  | Some m => if negb (String.eqb m "") then m else pretty code
  | None => pretty code
  end.
Definition res_destroy : M unit := emit ResDestroy.

Definition trace {A} (m : M A) : list event := fst m.

(** The events by which the gateway itself answers with a status line. *)
Definition is_response (e : event) : bool :=
  match e with
  | ResSendStatus _ | ResStatusJson _ _ => true
  | _ => false
  end.

Definition is_verify_call (e : event) : bool :=
  match e with CallVerifyStream _ _ _ _ _ => true | _ => false end.

Definition is_stream_call (e : event) : bool :=
  match e with CallStream _ => true | _ => false end.

Definition is_registry_call (e : event) : bool :=
  match e with CallGetInternalStream _ => true | _ => false end.

Definition is_json_parse (e : event) : bool :=
  match e with CallJSONParse _ | CallBodyDecode _ => true | _ => false end.

(** ** Stream routes *)

Section StreamRoutes.

(** [verifyStream(id, hmac, exp, secret, iv)] of [modules/stream/manage.js] *)
Variable verifyStream : string → string → string → string → string → outcome (option streamInfo).
(** [stream(res, streamInfo)] of [modules/stream/stream.js] *)
Variable stream : option streamInfo → outcome unit.
(** [getInternalStream(id)] of [modules/stream/manage.js] *)
Variable getInternalStream : qval → outcome (option streamInfo).

(** [streamInfo?.service], as a condition *)
Definition has_service (si : option streamInfo) : bool :=
  match si with
  | Some info => match service info with Some s => truthy s | None => false end
  | None => false
  end.

(** [streamInfo.status]: a TypeError when [streamInfo] is nullish *)
Definition get_status (si : option streamInfo) : M (option Z) :=
  match si with
  | Some info => mret (status info)
  | None => throw
  end.

(** [app.get('/api/stream', ...)] *)
Definition api_stream (req : request) : M unit :=
  let id := JsString (query_get req "id") in
  let exp := JsString (query_get req "exp") in
  let sig := JsString (query_get req "sig") in
  let sec := JsString (query_get req "sec") in
  let iv := JsString (query_get req "iv") in
  let checkQueries := truthy id && truthy exp && truthy sig && truthy sec && truthy iv in
  let checkBaseLength :=
    (String.length id =? 21)%nat && (String.length exp =? 13)%nat in
  let checkSafeLength :=
    (String.length sig =? 43)%nat && (String.length sec =? 43)%nat
    && (String.length iv =? 22)%nat in
  if checkQueries && checkBaseLength && checkSafeLength then
    if qtruthy (query_get req "p") then
      res_status_json 200 [("status", "continue")]
    else
      try_catch
        (streamInfo ← call (CallVerifyStream id sig exp sec iv) (verifyStream id sig exp sec iv);
         if negb (has_service streamInfo) then
           code ← get_status streamInfo;
           res_sendStatus code
         else
           call (CallStream streamInfo) (stream streamInfo))
        res_destroy
  else res_sendStatus (Some 400%Z).

(** [{ type: 'internal', ...streamInfo }] after
    [streamInfo.headers = req.headers]: the spread comes last, so a
    [type] the descriptor already has wins. *)
Definition internal_descriptor (req : request) (info : streamInfo) : streamInfo :=
  {| service := service info;
     status := status info;
     type := match type info with Some t => Some t | None => Some "internal" end;
     headers := Some (req_headers req);
     params := params info |}.

(** [app.get('/api/istream', ...)] *)
Definition api_istream (req : request) : M unit :=
  try_catch
    (if negb (endsWith (ip req) "127.0.0.1") then res_sendStatus (Some 403%Z)
     else if negb (String.length (JsString (query_get req "id")) =? 21)%nat then
       res_sendStatus (Some 400%Z)
     else
       streamInfo ← call (CallGetInternalStream (query_get req "id"))
                         (getInternalStream (query_get req "id"));
       match streamInfo with
       | None => res_sendStatus (Some 404%Z)
       | Some info => call (CallStream (Some (internal_descriptor req info)))
                           (stream (Some (internal_descriptor req info)))
       end)
    res_destroy.

End StreamRoutes.

(** ** Extraction route: body parsing *)

(** What a middleware leaves to the router: [next()] was called, or the
    response is finished. *)
Inductive flow := Next | Done.

(** [acceptRegex.test(s)] for [/^application\/json(; charset=utf-8)?$/] *)
Definition acceptRegex_test (s : string) : bool :=
  String.eqb s "application/json" || String.eqb s "application/json; charset=utf-8".

Section JsonRoute.

(** [JSON.parse(buf)]: returns, or throws a SyntaxError *)
Variable JSON_parse : list Byte.byte → outcome unit.
(** the body parser's own decoding of a body that the hook let through *)
Variable body_decode : list Byte.byte → outcome unit.

(** The [verify] hook given to [express.json]. *)
Definition verify (req : request) (buf : list Byte.byte) : M unit :=
  let acceptHeader := String.eqb (JsStringOpt (header req "Accept")) "application/json" in
  if acceptHeader then
    if 720 <? length buf then throw
    else call (CallJSONParse buf) (JSON_parse buf)
  else throw.

(** The error-handling middleware [(err, req, res, next)] mounted on
    [/api/json]; [err] is the truthiness of its first argument. *)
Definition json_error_handler (err : bool) (req : request) : M flow :=
  let errorText := "invalid json body" in
  let acceptHeader :=
    negb (String.eqb (JsStringOpt (header req "Accept")) "application/json") in
  if err || acceptHeader then
    let errorText := if acceptHeader then "invalid accept header" else errorText in
    res_status_json 400 [("status", "error"); ("text", errorText)];;
    mret Done
  else mret Next.

(** [express.json({ verify })] on a request whose raw body [buf] it
    reads, followed by the error middleware: the parser hands [buf] to
    the hook before decoding it, and an exception from the hook or from
    the decoder reaches the error middleware as a truthy [err]; without
    an exception that middleware is skipped. *)
Definition json_body_stage (req : request) (buf : list Byte.byte) : M flow :=
  try_catch
    (verify req buf;;
     call (CallBodyDecode buf) (body_decode buf);;
     mret Next)
    (json_error_handler true req).

(** The first gate of [app.post('/api/json', ...)]:
    [acceptRegex.test(req.header('Content-Type'))]. *)
Definition content_type_ok (req : request) : bool :=
  acceptRegex_test (JsStringOpt (header req "Content-Type")).

End JsonRoute.

(** ** Rate limiting *)

(** The options given to [rateLimit] for the two instances. *)
Record limiterOptions := { windowMs : Z; max : nat }.

Definition apiLimiter : limiterOptions := {| windowMs := 60000; max := 20 |}.
Definition apiLimiterStream : limiterOptions := {| windowMs := 60000; max := 25 |}.

Inductive limiter_id := LApi | LStream.

#[global] Instance limiter_id_eq_dec : EqDecision limiter_id.
Proof. solve_decision. Defined.

(** [app.use('/api/json', apiLimiter)], [app.use('/api/stream',
    apiLimiterStream)], [app.use('/api/onDemand', apiLimiter)] *)
Definition limiter_of (r : route) : option limiter_id :=
  match r with
  | ApiJson | ApiOnDemand => Some LApi
  | ApiStream => Some LStream
  | ApiIstream | OtherRoute => None
  end.

Definition options_of (l : limiter_id) : limiterOptions :=
  match l with
  | LApi => apiLimiter
  | LStream => apiLimiterStream
  end.

(** The bucket of one caller key: the timestamp at which its window
    opened and the requests counted in it. *)
Record RateBucket := { windowStart : Z; count : nat }.

(** Modelled from the spec: the counting done by [rateLimit] (package
    express-rate-limit) is not in the source tree.  A bucket is reset
    once its window has elapsed; a request is counted while the count is
    below [max], so the count never exceeds [max] inside a window, and a
    request that finds the count at [max] is rejected. *)
Definition consume (opts : limiterOptions) (store : gmap string RateBucket)
    (key : string) (now : Z) : gmap string RateBucket * bool :=
  let fresh := {| windowStart := now; count := 0 |} in
  let b := match store !! key with
           | Some b => if (now - windowStart b <? windowMs opts)%Z then b else fresh
           | None => fresh
           end in
  if count b <? max opts then
    (<[key := {| windowStart := windowStart b; count := S (count b) |}]> store, true)
  else (<[key := b]> store, false).

(** One store per limiter instance. *)
Record limiters := {
  apiStore : gmap string RateBucket;
  streamStore : gmap string RateBucket
}.

Definition store_of (l : limiter_id) (st : limiters) : gmap string RateBucket :=
  match l with
  | LApi => apiStore st
  | LStream => streamStore st
  end.

Definition set_store (l : limiter_id) (s : gmap string RateBucket) (st : limiters) : limiters :=
  match l with
  | LApi => {| apiStore := s; streamStore := streamStore st |}
  | LStream => {| apiStore := apiStore st; streamStore := s |}
  end.

(** The route groups of the two limiters, named by their routes: the
    extraction group is [/api/json] with [/api/onDemand], the stream
    group is [/api/stream]. *)
Definition sent_through (l : limiter_id) (req : request) : bool :=
  match l, route_of req with
  | LApi, ApiJson | LApi, ApiOnDemand | LStream, ApiStream => true
  | _, _ => false
  end.

Section RateLimit.

(** [generateHmac(str, salt)] of [modules/sub/crypto.js] *)
Variable generateHmac : string → string → string.
(** [getIP(req)] of [modules/processing/request.js] *)
Variable getIP : request → string.
(** [languageCode(req)] and [loc(lang, key)] *)
Variable languageCode : request → string.
Variable loc : string → string → string.
(** the value drawn once by [randomBytes(64).toString('hex')] *)
Variable ipSalt : string.

Definition keyGenerator (req : request) : string :=
  generateHmac (getIP req) ipSalt.

(** The [handler] option of each instance. *)
Definition limit_handler (l : limiter_id) (req : request) : M flow :=
  match l with
  | LApi =>
      res_status_json 429
        [("status", "rate-limit"); ("text", loc (languageCode req) "ErrorRateLimit")];;
      mret Done
  | LStream => res_sendStatus (Some 429%Z);; mret Done
  end.

(** The limiter middleware in front of the routes, for a request that
    arrives at time [now] (milliseconds). *)
Definition rate_limit (st : limiters) (req : request) (now : Z) : limiters * M flow :=
  match limiter_of (route_of req) with
  | None => (st, mret Next)
  | Some l =>
      let '(s, ok) := consume (options_of l) (store_of l st) (keyGenerator req) now in
      (set_store l s st, if ok then mret Next else limit_handler l req)
  end.

(** The request is one of caller [k] on a route of group [l]. *)
Definition targets (l : limiter_id) (k : string) (req : request) : bool :=
  sent_through l req && bool_decide (keyGenerator req = k).

(** A sequence of arrivals, oldest first. *)
Fixpoint rate_limit_all (st : limiters) (rs : list (request * Z)) : list (request * M flow) :=
  match rs with
  | [] => []
  | (req, now) :: rest =>
      let '(st', r) := rate_limit st req now in
      (req, r) :: rate_limit_all st' rest
  end.

(** What the requests of caller [k] on the routes of group [l] got, in
    order. *)
Definition verdicts (l : limiter_id) (k : string) (st : limiters)
    (rs : list (request * Z)) : list (request * M flow) :=
  filter (λ x, targets l k x.1) (rate_limit_all st rs).

End RateLimit.

(** The bucket [ob] of a key is what [c] requests inside the window
    opened at or after [t0] leave behind; before the first of them, a
    bucket left from an earlier window has had its time by [t0]. *)
Definition counted (opts : limiterOptions) (t0 : Z) (c : nat) (ob : option RateBucket) : Prop :=
  match ob with
  | None => c = 0
  | Some b =>
      (c = 0 ∧ (windowStart b + windowMs opts ≤ t0)%Z)
      ∨ ((t0 ≤ windowStart b < t0 + windowMs opts)%Z ∧ count b = c `min` max opts)
  end.

(** ** The token shape, as the gate reads it *)

(** The five token fields with the length the gate requires of each. *)
Definition token_fields : list (string * nat) :=
  [("id", 21); ("exp", 13); ("sig", 43); ("sec", 43); ("iv", 22)].

(** The text of field [fn.1] has the length [fn.2]. *)
Definition field_length_ok (req : request) (fn : string * nat) : Prop :=
  String.length (JsString (query_get req fn.1)) = fn.2.


(** Every field has its length (an absent field reads as the nine
    characters of [undefined], so this also says they are present). *)
Definition well_shaped (req : request) : Prop :=
  ∀ fn, fn ∈ token_fields → field_length_ok req fn.

(** The condition of the outer [if] of [api_stream]. *)
Definition shape_gate (req : request) : bool :=
  let id := JsString (query_get req "id") in
  let exp := JsString (query_get req "exp") in
  let sig := JsString (query_get req "sig") in
  let sec := JsString (query_get req "sec") in
  let iv := JsString (query_get req "iv") in
  (truthy id && truthy exp && truthy sig && truthy sec && truthy iv)
  && ((String.length id =? 21)%nat && (String.length exp =? 13)%nat)
  && ((String.length sig =? 43)%nat && (String.length sec =? 43)%nat
      && (String.length iv =? 22)%nat).

(** The status a response event carries, and the JSON body the gateway
    hands to [res.json] with it (a [res.sendStatus] takes none from the
    gateway; what it writes is [sendStatus_body]). *)
Definition status_of (e : event) : option Z :=
  match e with
  | ResSendStatus code => code
  | ResStatusJson code _ => Some code
  | _ => None
  end.

Definition body_of (e : event) : option json :=
  match e with
  | ResStatusJson _ body => Some body
  | _ => None
  end.

(** ** Sample requests and collaborators *)

Definition sample_id : string := "aaaaaaaaaaaaaaaaaaaaa".
Definition sample_exp : string := "1700000000000".
Definition sample_sig : string := "bbbbbbbbbbbbbbbbbbbbbbbbbbbbbbbbbbbbbbbbbbb".
Definition sample_sec : string := "ccccccccccccccccccccccccccccccccccccccccccc".
Definition sample_iv : string := "dddddddddddddddddddddd".

Definition sample_token : list (string * qval) :=
  [("id", QStr sample_id); ("exp", QStr sample_exp); ("sig", QStr sample_sig);
   ("sec", QStr sample_sec); ("iv", QStr sample_iv)].

Definition mk_request (r : route) (addr : string) (q : list (string * qval))
    (h : list (string * string)) : request :=
  {| route_of := r; ip := addr; query := list_to_map q; req_headers := list_to_map h |}.

Definition sample_descriptor : streamInfo :=
  {| service := Some "youtube"; status := None; type := None; headers := None;
     params := [("urls", "https://origin.example/v")] |}.

Definition failure (code : Z) : streamInfo :=
  {| service := None; status := Some code; type := None; headers := None; params := [] |}.

Definition verify_rejects : string → string → string → string → string →
    outcome (option streamInfo) :=
  λ _ _ _ _ _, Returns (Some (failure 401)).
Definition verify_accepts : string → string → string → string → string →
    outcome (option streamInfo) :=
  λ _ _ _ _ _, Returns (Some sample_descriptor).
Definition verify_throws : string → string → string → string → string →
    outcome (option streamInfo) :=
  λ _ _ _ _ _, Throws.
Definition stream_ok : option streamInfo → outcome unit := λ _, Returns tt.
Definition stream_throws : option streamInfo → outcome unit := λ _, Throws.
Definition registry_with_sample : qval → outcome (option streamInfo) :=
  λ _, Returns (Some sample_descriptor).

Definition parse_ok : list Byte.byte → outcome unit := λ _, Returns tt.

Definition empty_limiters : limiters := {| apiStore := ∅; streamStore := ∅ |}.

(** A signed fetch, the same with the probe flag, and one that lacks
    [sig]. *)
Definition token_request : request :=
  mk_request ApiStream "203.0.113.7" sample_token [].
Definition probe_request : request :=
  mk_request ApiStream "203.0.113.7" (("p", QStr "1") :: sample_token) [].

(** Internal fetches: from outside, from an address that is not the
    loopback address but ends in its text, and from the loopback address
    without [id]. *)
Definition outside_request : request :=
  mk_request ApiIstream "203.0.113.7" [("id", QStr sample_id)] [].
Definition suffix_request : request :=
  mk_request ApiIstream "2001:db8::127.0.0.1" [("id", QStr sample_id)] [].

(** Extraction requests and bodies. *)
Definition json_request : request :=
  mk_request ApiJson "203.0.113.7" []
    [("Accept", "application/json"); ("Content-Type", "application/json")].
Definition charset_accept_request : request :=
  mk_request ApiJson "203.0.113.7" []
    [("Accept", "application/json; charset=utf-8"); ("Content-Type", "application/json")].
Definition plain_accept_request : request :=
  mk_request ApiJson "203.0.113.7" []
    [("Accept", "text/plain"); ("Content-Type", "application/json")].
Definition small_body : list Byte.byte := [Byte.x7b; Byte.x7d].
Definition large_body : list Byte.byte := replicate 721 Byte.x20.

(** Stand-ins for the hashing and localisation collaborators. *)
Definition sample_hmac : string → string → string := λ str salt, salt +:+ "|" +:+ str.
Definition sample_getIP : request → string := ip.
Definition sample_languageCode : request → string := λ _, "en".
Definition sample_loc : string → string → string := λ _ key, key.
Definition sample_salt : string := "5f1d".
Definition sample_key : string := "5f1d|203.0.113.7".

(** Ten extraction requests, a stream fetch, then eleven more
    extraction requests, all from one address within a minute. *)
Definition burst : list (request * Z) :=
  replicate 10 (json_request, 1000%Z) ++ [(token_request, 2000%Z)]
  ++ replicate 11 (json_request, 3000%Z).

(** ** Answers *)

Definition is_destroy (e : event) : bool :=
  match e with ResDestroy => true | _ => false end.

(** The events that finish the response from the gateway's side. *)
Definition answers (e : event) : bool := is_response e || is_destroy e.

(** ** Path decoding guard *)

(** The value of a hexadecimal digit. *)
Definition hex_digit (c : Ascii.ascii) : option Z :=
  let n := Z.of_nat (Ascii.nat_of_ascii c) in
  if (48 <=? n)%Z && (n <=? 57)%Z then Some (n - 48)%Z
  else if (65 <=? n)%Z && (n <=? 70)%Z then Some (n - 55)%Z
  else if (97 <=? n)%Z && (n <=? 102)%Z then Some (n - 87)%Z
  else None.

(** The octet written by two hexadecimal digits. *)
Definition hex_octet (h1 h2 : Ascii.ascii) : option Z :=
  match hex_digit h1, hex_digit h2 with
  | Some a, Some b => Some (16 * a + b)%Z
  | _, _ => None
  end.

(** The number of leading 1 bits of an octet. *)
Definition leading_ones (B : Z) : nat :=
  if (B <? 128)%Z then 0
  else if (B <? 192)%Z then 1
  else if (B <? 224)%Z then 2
  else if (B <? 240)%Z then 3
  else if (B <? 248)%Z then 4
  else if (B <? 252)%Z then 5
  else if (B <? 254)%Z then 6
  else if (B <? 255)%Z then 7
  else 8.

(** The code point that [n] octets with payload [v] encode, when they
    are a well-formed UTF-8 sequence: not overlong, not a surrogate,
    not above U+10FFFF. *)
Definition utf8_code_point (n : nat) (v : Z) : option Z :=
  let least := match n with 2 => 128%Z | 3 => 2048%Z | _ => 65536%Z end in
  if (v <? least)%Z || (1114111 <? v)%Z || ((55296 <=? v)%Z && (v <=? 57343)%Z)
  then None else Some v.

(** The decoding loop of [decodeURIComponent].  [pending] is [None]
    between characters and [Some (n, j, v)] inside a sequence of [n]
    escaped octets of which [j] are still to come, [v] being the payload
    read so far.  The result lists the decoded code points; a URIError is
    [Throws]. *)
Fixpoint Decode (s : string) (pending : option (nat * nat * Z)) : outcome (list Z) :=
  match s with
  | EmptyString =>
      match pending with
      | None => Returns []
      | Some _ => Throws
      end
  | String c rest =>
      if Ascii.eqb c "%"%char then
        match rest with
        | String h1 (String h2 rest') =>
            match hex_octet h1 h2 with
            | None => Throws
            | Some B =>
                match pending with
                | None =>
                    match leading_ones B with
                    | 0 => match Decode rest' None with
                           | Returns l => Returns (B :: l)
                           | Throws => Throws
                           end
                    | 2 => Decode rest' (Some (2, 1, Z.land B 31))
                    | 3 => Decode rest' (Some (3, 2, Z.land B 15))
                    | 4 => Decode rest' (Some (4, 3, Z.land B 7))
                    | _ => Throws
                    end
                | Some (n, j, v) =>
                    if (Z.land B 192 =? 128)%Z then
                      let v' := (v * 64 + Z.land B 63)%Z in
                      match j with
                      | 0 => Throws
                      | 1 => match utf8_code_point n v' with
                             | Some V => match Decode rest' None with
                                         | Returns l => Returns (V :: l)
                                         | Throws => Throws
                                         end
                             | None => Throws
                             end
                      | S j' => Decode rest' (Some (n, j', v'))
                      end
                    else Throws
                end
            end
        | _ => Throws
        end
      else
        match pending with
        | None => match Decode rest None with
                  | Returns l => Returns (Z.of_nat (Ascii.nat_of_ascii c) :: l)
                  | Throws => Throws
                  end
        | Some _ => Throws
        end
  end.

Definition decodeURIComponent (s : string) : outcome (list Z) := Decode s None.

Inductive guard_result := GuardNext | GuardRedirect (target : string).

(** The middleware in front of the routes:
    [try { decodeURIComponent(req.path) } catch (e) { return res.redirect('/') } next()] *)
Definition decode_guard (path : string) : guard_result :=
  match decodeURIComponent path with
  | Returns _ => GuardNext
  | Throws => GuardRedirect "/"
  end.

(** No [%] among the characters of [s]. *)
Fixpoint no_percent (s : string) : bool :=
  match s with
  | EmptyString => true
  | String c rest => negb (Ascii.eqb c "%"%char) && no_percent rest
  end.

(** [s] opens with two hexadecimal digits. *)
Definition starts_with_octet (s : string) : bool :=
  match s with
  | String h1 (String h2 _) => match hex_octet h1 h2 with Some _ => true | None => false end
  | _ => false
  end.

(** ** Extraction route: the handler *)

Section ExtractionRoute.

(** What [req.body] holds once the body parser is done, and what the
    handler reads and writes of it. *)
Variable body : Type.
Variable url_truthy : body → bool.       (* ToBoolean(request.url) *)
Variable dubLang_truthy : body → bool.   (* ToBoolean(request.dubLang) *)
(** [request.dubLang = v], with [None] for [false] *)
Variable set_dubLang : body → option string → body.
(** [languageCode(req)], [loc(lang, key)] *)
Variable languageCode : request → string.
Variable loc : string → string → string.
(** [createResponse(type, { t })], as the pair of [status] and [body] *)
Variable createResponse : string → string → Z * json.
(** [verifyRequest(request)]: a normalized request, or a falsy value *)
Variable normalized : Type.
Variable verifyRequest : body → option normalized.
Variable normalized_url : normalized → string.
(** [extract(url)]: [null], or an object with [host] and [patternMatch] *)
Variable parsed : Type.
Variable host : Type.
Variable pattern : Type.
Variable extract : string → option parsed.
Variable parsed_host : parsed → host.
Variable parsed_patternMatch : parsed → pattern.
(** [await match(host, patternMatch, lang, normalizedRequest)]: the pair
    of [result.status] and [result.body], or an exception *)
Variable match_ : host → pattern → string → normalized → outcome (Z * json).

(** The local [fail] of the handler. *)
Definition fail (lang t : string) : M unit :=
  let '(status, body) := createResponse "error" (loc lang t) in
  res_status_json status body.

(** [app.post('/api/json', ...)] *)
Definition api_json (req : request) (request : body) : M unit :=
  let lang := languageCode req in
  if negb (acceptRegex_test (JsStringOpt (header req "Content-Type"))) then
    fail lang "ErrorInvalidContentType"
  else if negb (url_truthy request) then
    fail lang "ErrorNoLink"
  else
    let request := set_dubLang request (if dubLang_truthy request then Some lang else None) in
    match verifyRequest request with
    | None => fail lang "ErrorCantProcess"
    | Some normalizedRequest =>
        match extract (normalized_url normalizedRequest) with
        | None => fail lang "ErrorUnsupported"
        | Some parsed =>
            try_catch
              (result ← ([], match_ (parsed_host parsed) (parsed_patternMatch parsed)
                                    lang normalizedRequest);
               res_status_json_checked result.1 result.2)
              (fail lang "ErrorSomethingWentWrong")
        end
    end.

Variable JSON_parse : list Byte.byte → outcome unit.
Variable body_decode : list Byte.byte → outcome unit.
(** the value the body parser leaves in [req.body] for a raw body *)
Variable decoded : list Byte.byte → body.

(** The body stage followed by the handler, as the router chains them. *)
Definition json_route (req : request) (buf : list Byte.byte) : M unit :=
  next ← json_body_stage JSON_parse body_decode req buf;
  match next with
  | Next => api_json req (decoded buf)
  | Done => mret tt
  end.

End ExtractionRoute.

(** ** The extraction route as the application chains it *)

(** What the JSON body parser does with a request before it gets to its
    [verify] hook: it skips a request without a body or with a
    Content-Type that is not JSON, calling [next()] with [req.body = {}];
    it fails on a body it cannot read (unsupported charset or encoding,
    its own size limit, an aborted stream), passing the error on; or it
    reads the raw body and hands it to the hook. *)
Inductive reading := Skips | Fails | Reads.

Section BodyParser.

Variable JSON_parse : list Byte.byte → outcome unit.
Variable body_decode : list Byte.byte → outcome unit.
(** the parser's decision for a request and the body sent with it *)
Variable reading_of : request → list Byte.byte → reading.

(** [app.use('/api/json', express.json({ verify }))] with the error
    middleware mounted after it, for a request sent with the body
    [buf]. *)
Definition express_json (req : request) (buf : list Byte.byte) : M flow :=
  match reading_of req buf with
  | Skips => mret Next
  | Fails => json_error_handler true req
  | Reads => json_body_stage JSON_parse body_decode req buf
  end.

End BodyParser.

Section ExtractionApp.

Variable body : Type.
Variable url_truthy : body → bool.
Variable dubLang_truthy : body → bool.
Variable set_dubLang : body → option string → body.
Variable languageCode : request → string.
Variable loc : string → string → string.
Variable createResponse : string → string → Z * json.
Variable normalized : Type.
Variable verifyRequest : body → option normalized.
Variable normalized_url : normalized → string.
Variable parsed : Type.
Variable host : Type.
Variable pattern : Type.
Variable extract : string → option parsed.
Variable parsed_host : parsed → host.
Variable parsed_patternMatch : parsed → pattern.
Variable match_ : host → pattern → string → normalized → outcome (Z * json).
Variable JSON_parse : list Byte.byte → outcome unit.
Variable body_decode : list Byte.byte → outcome unit.
Variable reading_of : request → list Byte.byte → reading.
Variable decoded : list Byte.byte → body.
(** the [{}] that a skipped request has as [req.body] *)
Variable empty_body : body.

(** Body parser, error middleware and handler, in the order of the
    mounts. *)
Definition post_json (req : request) (buf : list Byte.byte) : M unit :=
  next ← express_json JSON_parse body_decode reading_of req buf;
  match next with
  | Next =>
      api_json body url_truthy dubLang_truthy set_dubLang languageCode loc createResponse
        normalized verifyRequest normalized_url parsed host pattern extract parsed_host
        parsed_patternMatch match_ req
        (match reading_of req buf with Reads => decoded buf | _ => empty_body end)
  | Done => mret tt
  end.

End ExtractionApp.

(** ** The runs of the stream handlers *)

(** The ways [app.get('/api/stream')] can go, by what the gate, the probe
    flag and the two collaborators say. *)
Inductive stream_run
    (verifyStream : string → string → string → string → string → outcome (option streamInfo))
    (stream : option streamInfo → outcome unit) (req : request) : M unit → Prop :=
| run_malformed :
    shape_gate req = false →
    stream_run verifyStream stream req ([ResSendStatus (Some 400%Z)], Returns tt)
| run_probe :
    shape_gate req = true → qtruthy (query_get req "p") = true →
    stream_run verifyStream stream req
      ([ResStatusJson 200 [("status", "continue")]], Returns tt)
| run_checked (v : outcome (option streamInfo)) (r : M unit) :
    shape_gate req = true → qtruthy (query_get req "p") = false →
    verifyStream (JsString (query_get req "id")) (JsString (query_get req "sig"))
                 (JsString (query_get req "exp")) (JsString (query_get req "sec"))
                 (JsString (query_get req "iv")) = v →
    r = (let called := CallVerifyStream (JsString (query_get req "id"))
                         (JsString (query_get req "sig")) (JsString (query_get req "exp"))
                         (JsString (query_get req "sec")) (JsString (query_get req "iv")) in
         match v with
         | Throws | Returns None => ([called; ResDestroy], Returns tt)
         | Returns (Some info) =>
             if has_service (Some info) then
               match stream (Some info) with
               | Returns _ => ([called; CallStream (Some info)], Returns tt)
               | Throws => ([called; CallStream (Some info); ResDestroy], Returns tt)
               end
             else if status_valid (status info) then
               ([called; ResSendStatus (status info)], Returns tt)
             else ([called; ResDestroy], Returns tt)
         end) →
    stream_run verifyStream stream req r.

(** The ways [app.get('/api/istream')] can go. *)
Inductive istream_run
    (stream : option streamInfo → outcome unit)
    (getInternalStream : qval → outcome (option streamInfo)) (req : request) : M unit → Prop :=
| irun_forbidden :
    endsWith (ip req) "127.0.0.1" = false →
    istream_run stream getInternalStream req ([ResSendStatus (Some 403%Z)], Returns tt)
| irun_bad_id :
    endsWith (ip req) "127.0.0.1" = true →
    String.length (JsString (query_get req "id")) ≠ 21 →
    istream_run stream getInternalStream req ([ResSendStatus (Some 400%Z)], Returns tt)
| irun_lookup (r : M unit) :
    endsWith (ip req) "127.0.0.1" = true →
    String.length (JsString (query_get req "id")) = 21 →
    r = (let looked := CallGetInternalStream (query_get req "id") in
         match getInternalStream (query_get req "id") with
         | Throws => ([looked; ResDestroy], Returns tt)
         | Returns None => ([looked; ResSendStatus (Some 404%Z)], Returns tt)
         | Returns (Some info) =>
             let d := Some (internal_descriptor req info) in
             match stream d with
             | Returns _ => ([looked; CallStream d], Returns tt)
             | Throws => ([looked; CallStream d; ResDestroy], Returns tt)
             end
         end) →
    istream_run stream getInternalStream req r.

(** ** Sample collaborators of the extraction route *)

(** A parsed body reduced to what the handler reads of it. *)
Record sample_body := { sb_url : string; sb_dubLang : option string }.

Definition sample_set_dubLang (b : sample_body) (v : option string) : sample_body :=
  {| sb_url := sb_url b; sb_dubLang := v |}.
Definition sample_createResponse (kind text : string) : Z * json :=
  (400%Z, [("status", kind); ("text", text)]).
Definition sample_verifyRequest (b : sample_body) : option sample_body := Some b.
Definition sample_extract (url : string) : option string := Some url.
Definition match_throws : string → string → string → sample_body → outcome (Z * json) :=
  λ _ _ _ _, Throws.
Definition match_redirects : string → string → string → sample_body → outcome (Z * json) :=
  λ _ _ _ b, Returns (200%Z, [("status", "redirect"); ("url", sb_url b)]).
Definition match_out_of_range : string → string → string → sample_body → outcome (Z * json) :=
  λ _ _ _ b, Returns (1000%Z, [("status", "redirect"); ("url", sb_url b)]).
Definition sample_decoded (buf : list Byte.byte) : sample_body :=
  {| sb_url := "https://example.org/watch"; sb_dubLang := None |}.

Definition sample_url_truthy (b : sample_body) : bool := truthy (sb_url b).
Definition sample_dubLang_truthy (b : sample_body) : bool :=
  match sb_dubLang b with Some l => truthy l | None => false end.

(** The handler and the route over the sample collaborators. *)
Definition sample_api_json
    (m : string → string → string → sample_body → outcome (Z * json)) :
    request → sample_body → M unit :=
  api_json sample_body sample_url_truthy sample_dubLang_truthy sample_set_dubLang
    sample_languageCode sample_loc sample_createResponse sample_body sample_verifyRequest
    sb_url string string string sample_extract id id m.
Definition sample_json_route
    (m : string → string → string → sample_body → outcome (Z * json)) :
    request → list Byte.byte → M unit :=
  json_route sample_body sample_url_truthy sample_dubLang_truthy sample_set_dubLang
    sample_languageCode sample_loc sample_createResponse sample_body sample_verifyRequest
    sb_url string string string sample_extract id id m parse_ok parse_ok sample_decoded.

(** The parser's decision reduced to the content type. *)
Definition sample_reading (req : request) (buf : list Byte.byte) : reading :=
  if content_type_ok req then Reads else Skips.
Definition sample_empty_body : sample_body := {| sb_url := ""; sb_dubLang := None |}.
Definition sample_post_json
    (m : string → string → string → sample_body → outcome (Z * json)) :
    request → list Byte.byte → M unit :=
  post_json sample_body sample_url_truthy sample_dubLang_truthy sample_set_dubLang
    sample_languageCode sample_loc sample_createResponse sample_body sample_verifyRequest
    sb_url string string string sample_extract id id m parse_ok parse_ok sample_reading
    sample_decoded sample_empty_body.

(** Extraction requests with a Content-Type that is not JSON. *)
Definition plain_type_request : request :=
  mk_request ApiJson "203.0.113.7" []
    [("Accept", "application/json"); ("Content-Type", "text/plain")].
Definition plain_both_request : request :=
  mk_request ApiJson "203.0.113.7" []
    [("Accept", "text/plain"); ("Content-Type", "text/plain")].

(** A verifier whose failure carries a status that cannot be sent. *)
Definition verify_out_of_range : string → string → string → string → string →
    outcome (option streamInfo) :=
  λ _ _ _ _ _, Returns (Some (failure 1000)).

(** A table of status texts. *)
Definition sample_message (code : Z) : option string :=
  if (code =? 401)%Z then Some "Unauthorized" else None.

(** A caller whose earlier window, opened at time 0 and used up, is
    over, and a second burst of the same shape a minute later. *)
Definition stale_limiters : limiters :=
  {| apiStore := {[ sample_key := {| windowStart := 0; count := 20 |} ]};
     streamStore := ∅ |}.
Definition late_burst : list (request * Z) :=
  replicate 10 (json_request, 61000%Z) ++ [(token_request, 62000%Z)]
  ++ replicate 11 (json_request, 63000%Z).

Definition loopback_request : request :=
  mk_request ApiIstream "::ffff:127.0.0.1" [("id", QStr sample_id)]
    [("range", "bytes=0-")].
Definition registry_empty : qval → outcome (option streamInfo) := λ _, Returns None.
Definition registry_throws : qval → outcome (option streamInfo) := λ _, Throws.
Definition verify_nullish : string → string → string → string → string →
    outcome (option streamInfo) :=
  λ _ _ _ _ _, Returns None.

(** * Properties *)

(** ** The shape gate *)

Lemma truthy_nonempty (s : string) : String.length s ≠ 0 → truthy s = true.
Proof. by destruct s. Qed.


Lemma shape_gate_true (req : request) : shape_gate req = true ↔ well_shaped req.
Proof.
  unfold shape_gate, well_shaped. split.
  - intros H.
    repeat match goal with E : _ && _ = true |- _ => apply andb_prop in E as [? ?] end.
    repeat match goal with E : (_ =? _)%nat = true |- _ => apply Nat.eqb_eq in E end.
    intros fn Hin. unfold token_fields in Hin. rewrite !elem_of_cons, elem_of_nil in Hin.
    destruct Hin as [-> | [-> | [-> | [-> | [-> | []]]]]]; done.
  - intros H.
    assert (("id", 21) ∈ token_fields ∧ ("exp", 13) ∈ token_fields
            ∧ ("sig", 43) ∈ token_fields ∧ ("sec", 43) ∈ token_fields
            ∧ ("iv", 22) ∈ token_fields) as (Iid & Iexp & Isig & Isec & Iiv)
      by (unfold token_fields; rewrite !elem_of_cons; tauto).
    apply H in Iid, Iexp, Isig, Isec, Iiv. unfold field_length_ok in *. simpl in *.
    rewrite !truthy_nonempty by lia.
    by rewrite Iid, Iexp, Isig, Isec, Iiv.
Qed.


Section StreamRouteFacts.

Variable verifyStream : string → string → string → string → string →
  outcome (option streamInfo).
Variable stream : option streamInfo → outcome unit.
Variable getInternalStream : qval → outcome (option streamInfo).

#[local] Arguments has_service : simpl never.

Lemma api_stream_gate (req : request) :
  api_stream verifyStream stream req =
  if shape_gate req then
    if qtruthy (query_get req "p") then res_status_json 200 [("status", "continue")]
    else
      let id := JsString (query_get req "id") in
      let exp := JsString (query_get req "exp") in
      let sig := JsString (query_get req "sig") in
      let sec := JsString (query_get req "sec") in
      let iv := JsString (query_get req "iv") in
      try_catch
        (streamInfo ← call (CallVerifyStream id sig exp sec iv)
                           (verifyStream id sig exp sec iv);
         if negb (has_service streamInfo) then
           code ← get_status streamInfo; res_sendStatus code
         else call (CallStream streamInfo) (stream streamInfo))
        res_destroy
  else res_sendStatus (Some 400%Z).
Proof. reflexivity. Qed.


Lemma api_stream_probe (req : request) :
  well_shaped req →
  qtruthy (query_get req "p") = true →
  api_stream verifyStream stream req
  = ([ResStatusJson 200 [("status", "continue")]], Returns tt).
Proof.
  intros Hshape Hp. apply shape_gate_true in Hshape.
  by rewrite api_stream_gate, Hshape, Hp.
Qed.

(** C2. A well-shaped token together with a truthy probe parameter [p]
    is answered with status 200 and the body [{status: "continue"}];
    neither [verifyStream] nor [stream] is called. *)
Theorem probe_short_circuit (req : request) :
  well_shaped req →
  qtruthy (query_get req "p") = true →
  api_stream verifyStream stream req
    = ([ResStatusJson 200 [("status", "continue")]], Returns tt)
  ∧ (∀ e, e ∈ trace (api_stream verifyStream stream req) →
          is_verify_call e = false ∧ is_stream_call e = false).
Proof.
  intros Hshape Hp. rewrite (api_stream_probe req Hshape Hp). split; first done.
  intros e He. apply list_elem_of_singleton in He. by subst.
Qed.

(** What the handler does once the gate is passed and no probe is
    asked for, by the outcome of the two collaborators. *)
Lemma api_stream_verified (req : request) :
  well_shaped req →
  qtruthy (query_get req "p") = false →
  let id := JsString (query_get req "id") in
  let exp := JsString (query_get req "exp") in
  let sig := JsString (query_get req "sig") in
  let sec := JsString (query_get req "sec") in
  let iv := JsString (query_get req "iv") in
  let called := CallVerifyStream id sig exp sec iv in
  api_stream verifyStream stream req =
  match verifyStream id sig exp sec iv with
  | Throws => ([called; ResDestroy], Returns tt)
  | Returns None => ([called; ResDestroy], Returns tt)
  | Returns (Some info) =>
      if has_service (Some info) then
        match stream (Some info) with
        | Returns _ => ([called; CallStream (Some info)], Returns tt)
        | Throws => ([called; CallStream (Some info); ResDestroy], Returns tt)
        end
      else if status_valid (status info) then
        ([called; ResSendStatus (status info)], Returns tt)
      else ([called; ResDestroy], Returns tt)
  end.
Proof.
  intros Hshape Hp. apply shape_gate_true in Hshape.
  rewrite api_stream_gate, Hshape, Hp. cbv zeta.
  destruct (verifyStream _ _ _ _ _) as [[info|]|]; [|reflexivity..].
  cbn. destruct (has_service (Some info)).
  - cbn. by destruct (stream (Some info)) as [[]|].
  - cbn. unfold res_sendStatus. by destruct (status_valid (status info)).
Qed.

Lemma pretty_N_go_length (x : N) (s : string) :
  String.length s ≤ String.length (pretty_N_go x s).
Proof.
  revert s. induction (N.lt_wf_0 x) as [x _ IH]; intros s.
  destruct (decide (x = 0)%N) as [-> | Hx]; [by rewrite pretty_N_go_0 |].
  rewrite pretty_N_go_step by lia.
  etrans; [| apply IH, N.div_lt; lia]. simpl. lia.
Qed.

(** [String(code)] is never the empty string. *)
Lemma pretty_Z_nonempty (c : Z) : pretty c ≠ "".
Proof.
  assert (∀ p : positive, pretty p ≠ "") as Hpos.
  { intros p. unfold pretty, pretty_positive, pretty, pretty_N.
    rewrite decide_False by done. rewrite pretty_N_go_step by lia.
    intros Hempty.
    pose proof (pretty_N_go_length (N.pos p `div` 10)
                  (String (pretty_N_char (N.pos p `mod` 10)) "")) as Hlen.
    rewrite Hempty in Hlen. simpl in Hlen. lia. }
  destruct c as [|p|p]; unfold pretty, pretty_Z; [done | apply Hpos |].
  intros Hempty. discriminate Hempty.
Qed.

(** [res.sendStatus] always passes some text on as the body. *)
Lemma sendStatus_body_nonempty (message : Z → option string) (c : Z) :
  sendStatus_body message c ≠ "".
Proof.
  unfold sendStatus_body. destruct (message c) as [m|]; [| apply pretty_Z_nonempty].
  destruct (String.eqb_spec m "") as [-> | Hm]; simpl; [apply pretty_Z_nonempty | done].
Qed.

(** C7, as the code has it.  When a well-shaped, non-probe request is
    verified and [verifyStream] returns an object without a non-empty
    [service]: if the [status] of that object is an integer from 100 to
    999, the handler answers by calling [res.sendStatus] with exactly
    that status, and the body that [res.sendStatus] passes on is the
    status text, never the empty text; with any other [status], an
    absent one included, [res.sendStatus] throws and the connection is
    destroyed without a status. *)
Theorem failure_status_forwarded (message : Z → option string)
    (req : request) (info : streamInfo) :
  well_shaped req →
  qtruthy (query_get req "p") = false →
  verifyStream (JsString (query_get req "id")) (JsString (query_get req "sig"))
               (JsString (query_get req "exp")) (JsString (query_get req "sec"))
               (JsString (query_get req "iv")) = Returns (Some info) →
  has_service (Some info) = false →
  (∀ c, status info = Some c → (100 ≤ c ≤ 999)%Z →
     api_stream verifyStream stream req
     = ([CallVerifyStream (JsString (query_get req "id")) (JsString (query_get req "sig"))
           (JsString (query_get req "exp")) (JsString (query_get req "sec"))
           (JsString (query_get req "iv")); ResSendStatus (Some c)], Returns tt)
     ∧ sendStatus_body message c ≠ "")
  ∧ (status_valid (status info) = false →
     api_stream verifyStream stream req
     = ([CallVerifyStream (JsString (query_get req "id")) (JsString (query_get req "sig"))
           (JsString (query_get req "exp")) (JsString (query_get req "sec"))
           (JsString (query_get req "iv")); ResDestroy], Returns tt)).
Proof.
  intros Hshape Hp Hv Hs.
  rewrite (api_stream_verified req Hshape Hp). cbv zeta. rewrite Hv, Hs. split.
  - intros c Hc Hrange. rewrite Hc. unfold status_valid.
    assert ((100 <=? c)%Z && (c <=? 999)%Z = true) as ->
      by (apply andb_true_intro; split; apply Z.leb_le; lia).
    split; [done | apply sendStatus_body_nonempty].
  - by intros ->.
Qed.

(** C8. For a well-shaped request, when the call to [verifyStream] or
    the call to [stream] throws, the handler catches the exception, its
    last action is [res.destroy()], and it sends no status and no body
    of its own. *)
Theorem collaborator_exception_destroys (req : request) :
  well_shaped req →
  (∃ id sig exp sec iv,
      CallVerifyStream id sig exp sec iv ∈ trace (api_stream verifyStream stream req)
      ∧ verifyStream id sig exp sec iv = Throws)
  ∨ (∃ info, CallStream info ∈ trace (api_stream verifyStream stream req)
             ∧ stream info = Throws) →
  last (trace (api_stream verifyStream stream req)) = Some ResDestroy
  ∧ (∀ e, e ∈ trace (api_stream verifyStream stream req) → is_response e = false)
  ∧ snd (api_stream verifyStream stream req) = Returns tt.
Proof.
  intros Hshape Hthrown.
  destruct (qtruthy (query_get req "p")) eqn:Hp.
  { rewrite (api_stream_probe req Hshape Hp) in Hthrown.
    cbn in Hthrown. exfalso.
    destruct Hthrown as [(? & ? & ? & ? & ? & Hin & _) | (? & Hin & _)];
      by apply list_elem_of_singleton in Hin. }
  pose proof (api_stream_verified req Hshape Hp) as Heq. cbv zeta in Heq.
  rewrite Heq in *. clear Heq.
  destruct (verifyStream _ _ _ _ _) as [[info|]|] eqn:Hv.
  - destruct (has_service (Some info)) eqn:Hs.
    + destruct (stream (Some info)) as [[]|] eqn:Hst.
      * exfalso. cbn in Hthrown.
        destruct Hthrown as [(? & ? & ? & ? & ? & Hin & Hth) | (? & Hin & Hth)];
          rewrite !elem_of_cons, elem_of_nil in Hin;
          destruct Hin as [Hin | [Hin | []]]; simplify_eq; congruence.
      * cbn. split_and!; try done. intros e He.
        rewrite !elem_of_cons, elem_of_nil in He.
        by destruct He as [-> | [-> | [-> | []]]].
    + exfalso. destruct (status_valid (status info)); cbn in Hthrown;
        destruct Hthrown as [(? & ? & ? & ? & ? & Hin & Hth) | (? & Hin & Hth)];
        rewrite !elem_of_cons, elem_of_nil in Hin;
        destruct Hin as [Hin | [Hin | []]]; simplify_eq; congruence.
  - exfalso. cbn in Hthrown.
    destruct Hthrown as [(? & ? & ? & ? & ? & Hin & Hth) | (? & Hin & Hth)];
      rewrite !elem_of_cons, elem_of_nil in Hin;
      destruct Hin as [Hin | [Hin | []]]; simplify_eq; congruence.
  - cbn. split_and!; try done. intros e He.
    rewrite !elem_of_cons, elem_of_nil in He.
    by destruct He as [-> | [-> | []]].
Qed.

(** C4, as the code has it.  A caller whose address does not end in
    [127.0.0.1] is answered with status 403 and nothing else happens:
    [id] is not read and the registry is not consulted, whatever [id]
    is and whatever the registry holds. *)
Theorem non_loopback_forbidden (req : request) :
  endsWith (ip req) "127.0.0.1" = false →
  api_istream stream getInternalStream req = ([ResSendStatus (Some 403%Z)], Returns tt)
  ∧ (∀ e, e ∈ trace (api_istream stream getInternalStream req) →
          is_registry_call e = false ∧ is_stream_call e = false).
Proof.
  intros Hip. unfold api_istream. rewrite Hip. cbn. split; first done.
  intros e He. apply list_elem_of_singleton in He. by subst.
Qed.


End StreamRouteFacts.

(** ** Body parsing on the extraction route *)

Section JsonRouteFacts.

Variable JSON_parse : list Byte.byte → outcome unit.
Variable body_decode : list Byte.byte → outcome unit.

Lemma accept_test (req : request) :
  String.eqb (JsStringOpt (header req "Accept")) "application/json"
  = bool_decide (header req "Accept" = Some "application/json").
Proof.
  destruct (header req "Accept") as [s|]; simpl; last done.
  case_bool_decide as E.
  - injection E as ->. apply String.eqb_refl.
  - apply String.eqb_neq. congruence.
Qed.

Lemma verify_wrong_accept (req : request) (buf : list Byte.byte) :
  header req "Accept" ≠ Some "application/json" → verify JSON_parse req buf = throw.
Proof. intros H. unfold verify. by rewrite accept_test, bool_decide_eq_false_2. Qed.

Variable reading_of : request → list Byte.byte → reading.

(** C3, as the code has it.  For a request that the body parser takes
    up (it reads the body, or fails to): with [Accept: application/json]
    the stage never answers with the accept-header message, and lets a
    body of at most 720 bytes that parses go on to the route; with any
    other [Accept] value, the charset-qualified one included, or with no
    [Accept] header, it answers 400 with the text
    [invalid accept header], whatever the body is.  A request that the
    parser skips goes on to the route with nothing sent, whatever its
    [Accept] header. *)
Theorem accept_header_gate (req : request) (buf : list Byte.byte) :
  (reading_of req buf ≠ Skips →
   (header req "Accept" = Some "application/json" →
      (∀ e, e ∈ trace (express_json JSON_parse body_decode reading_of req buf) →
            body_of e ≠ Some [("status", "error"); ("text", "invalid accept header")])
      ∧ (reading_of req buf = Reads → length buf ≤ 720 →
         JSON_parse buf = Returns tt → body_decode buf = Returns tt →
         express_json JSON_parse body_decode reading_of req buf
         = ([CallJSONParse buf; CallBodyDecode buf], Returns Next)))
   ∧ (header req "Accept" ≠ Some "application/json" →
      express_json JSON_parse body_decode reading_of req buf
      = ([ResStatusJson 400 [("status", "error"); ("text", "invalid accept header")]],
         Returns Done)))
  ∧ (reading_of req buf = Skips →
     express_json JSON_parse body_decode reading_of req buf = ([], Returns Next)).
Proof.
  unfold express_json. split; [| by intros ->].
  intros Hread. split.
  - intros Hacc. split.
    + intros e. destruct (reading_of req buf); [done | |].
      * unfold json_error_handler. rewrite accept_test, bool_decide_eq_true_2 by done.
        cbn. intros He. apply list_elem_of_singleton in He. by subst.
      * unfold json_body_stage, json_error_handler, verify.
        rewrite accept_test, bool_decide_eq_true_2 by done.
        destruct (720 <? length buf); cbn.
        { intros He. apply list_elem_of_singleton in He. by subst. }
        destruct (JSON_parse buf) as [[]|]; cbn;
          [destruct (body_decode buf) as [[]|]; cbn |];
          rewrite ?elem_of_cons, elem_of_nil; intros He;
          repeat (destruct He as [-> | He]; first done); done.
    + intros -> Hlen Hp Hd. unfold json_body_stage, json_error_handler, verify.
      rewrite accept_test, bool_decide_eq_true_2 by done.
      apply Nat.ltb_ge in Hlen. by rewrite Hlen, Hp, Hd.
  - intros Hacc. destruct (reading_of req buf); [done | |].
    + unfold json_error_handler. by rewrite accept_test, bool_decide_eq_false_2.
    + unfold json_body_stage, json_error_handler.
      rewrite (verify_wrong_accept req buf Hacc).
      by rewrite accept_test, bool_decide_eq_false_2.
Qed.

(** C6, as the code has it.  For a request whose body the parser reads,
    with [Accept: application/json] and a raw body of more than 720
    bytes, the stage answers 400 with the text [invalid json body];
    neither [JSON.parse] nor the body decoder is run on the body. *)
Theorem oversized_body_rejected (req : request) (buf : list Byte.byte) :
  reading_of req buf = Reads →
  header req "Accept" = Some "application/json" →
  720 < length buf →
  express_json JSON_parse body_decode reading_of req buf
  = ([ResStatusJson 400 [("status", "error"); ("text", "invalid json body")]], Returns Done)
  ∧ (∀ e, e ∈ trace (express_json JSON_parse body_decode reading_of req buf) →
          is_json_parse e = false).
Proof.
  intros Hread Hacc Hlen. apply Nat.ltb_lt in Hlen.
  assert (express_json JSON_parse body_decode reading_of req buf
          = ([ResStatusJson 400 [("status", "error"); ("text", "invalid json body")]],
             Returns Done)) as Heq.
  { unfold express_json. rewrite Hread.
    unfold json_body_stage, json_error_handler, verify.
    by rewrite accept_test, bool_decide_eq_true_2, Hlen by done. }
  rewrite Heq. split; first done.
  intros e He. apply list_elem_of_singleton in He. by subst.
Qed.

(** The charset qualifier is what [acceptRegex] allows, and the route
    applies it to [Content-Type]. *)
Lemma content_type_ok_iff (req : request) :
  content_type_ok req = true ↔
  header req "Content-Type" = Some "application/json"
  ∨ header req "Content-Type" = Some "application/json; charset=utf-8".
Proof.
  unfold content_type_ok, acceptRegex_test.
  rewrite orb_true_iff, !String.eqb_eq.
  destruct (header req "Content-Type") as [s|]; simpl.
  - split; [intros [-> | ->]; auto | intros [H | H]; injection H as ->; auto].
  - split; intros [H | H]; discriminate.
Qed.

End JsonRouteFacts.

(** ** Rate limiting *)

Lemma consume_counted (opts : limiterOptions) (store : gmap string RateBucket)
    (k : string) (now t0 : Z) (c : nat) :
  counted opts t0 c (store !! k) →
  (t0 ≤ now < t0 + windowMs opts)%Z →
  (consume opts store k now).2 = bool_decide (c < max opts)
  ∧ counted opts t0 (S c) ((consume opts store k now).1 !! k).
Proof.
  intros Hc Hnow.
  assert (c = 0 →
          (let fresh := {| windowStart := now; count := 0 |} in
           if count fresh <? max opts
           then (<[k:={| windowStart := windowStart fresh; count := S (count fresh) |}]> store,
                 true)
           else (<[k:=fresh]> store, false)) = consume opts store k now →
          (consume opts store k now).2 = bool_decide (c < max opts)
          ∧ counted opts t0 (S c) ((consume opts store k now).1 !! k)) as Hfresh.
  { intros -> <-. cbv zeta. cbn [windowStart count].
    destruct (Nat.ltb_spec 0 (max opts)) as [Hlt | Hge]; cbn [fst snd].
    - rewrite lookup_insert_eq, bool_decide_eq_true_2 by lia.
      split; first done. right. cbn [windowStart count]. lia.
    - rewrite lookup_insert_eq, bool_decide_eq_false_2 by lia.
      split; first done. right. cbn [windowStart count]. lia. }
  unfold consume in *.
  destruct (store !! k) as [b|] eqn:Hk; unfold counted in Hc.
  - destruct Hc as [[Hzero Hold] | [Hws Hcount]].
    + apply Hfresh; first done.
      assert ((now - windowStart b <? windowMs opts)%Z = false) as ->
        by (apply Z.ltb_ge; lia).
      done.
    + assert ((now - windowStart b <? windowMs opts)%Z = true) as ->
        by (apply Z.ltb_lt; lia).
      destruct (Nat.ltb_spec (count b) (max opts)) as [Hlt | Hge]; cbn [fst snd].
      * rewrite lookup_insert_eq, bool_decide_eq_true_2 by lia.
        split; first done. right. cbn [windowStart count]. lia.
      * rewrite lookup_insert_eq, bool_decide_eq_false_2 by lia.
        split; first done. right. lia.
  - by apply Hfresh.
Qed.

Lemma consume_other_key (opts : limiterOptions) (store : gmap string RateBucket)
    (k k' : string) (now : Z) :
  k' ≠ k → (consume opts store k' now).1 !! k = store !! k.
Proof.
  intros Hne. unfold consume.
  destruct (count _ <? max opts); simpl; by rewrite lookup_insert_ne.
Qed.

Lemma store_of_set_store (l l' : limiter_id) (s : gmap string RateBucket) (st : limiters) :
  store_of l (set_store l' s st) = if decide (l = l') then s else store_of l st.
Proof. by destruct l, l', st. Qed.

Section RateLimitFacts.

Variable generateHmac : string → string → string.
Variable getIP : request → string.
Variable languageCode : request → string.
Variable loc : string → string → string.
Variable ipSalt : string.

Local Notation key_of := (keyGenerator generateHmac getIP ipSalt).
Local Notation aimed := (targets generateHmac getIP ipSalt).
Local Notation reject := (limit_handler languageCode loc).
Local Notation limit := (rate_limit generateHmac getIP languageCode loc ipSalt).
Local Notation verdicts_of := (verdicts generateHmac getIP languageCode loc ipSalt).

(** The key is a function of the address that [getIP] reports. *)
Lemma keyGenerator_deterministic (req1 req2 : request) :
  getIP req1 = getIP req2 → key_of req1 = key_of req2.
Proof. unfold keyGenerator. by intros ->. Qed.

Lemma limit_handler_429 (l : limiter_id) (req : request) :
  ∃ e, reject l req = ([e], Returns Done) ∧ status_of e = Some 429%Z.
Proof. destruct l; eexists; split; reflexivity. Qed.

(** The mounts put each route of a group, and nothing else, behind the
    group's limiter. *)
Lemma limiter_of_sent_through (l : limiter_id) (req : request) :
  limiter_of (route_of req) = Some l ↔ sent_through l req = true.
Proof.
  unfold sent_through, limiter_of.
  destruct l, (route_of req); split; intros H; (done || discriminate).
Qed.

Lemma rate_limit_target (st : limiters) (req : request) (now t0 : Z)
    (l : limiter_id) (k : string) (c : nat) :
  aimed l k req = true →
  counted (options_of l) t0 c (store_of l st !! k) →
  (t0 ≤ now < t0 + windowMs (options_of l))%Z →
  (limit st req now).2
    = (if bool_decide (c < max (options_of l)) then mret Next else reject l req)
  ∧ counted (options_of l) t0 (S c) (store_of l (limit st req now).1 !! k).
Proof.
  intros Ht Hc Hnow. unfold targets in Ht.
  apply andb_prop in Ht as [Hl Hk].
  apply limiter_of_sent_through in Hl. apply bool_decide_eq_true_1 in Hk.
  unfold rate_limit. rewrite Hl, Hk.
  destruct (consume_counted _ _ k now t0 c Hc Hnow) as [Hok Hc'].
  destruct (consume (options_of l) (store_of l st) k now) as [s ok].
  cbn [fst snd] in *.
  rewrite store_of_set_store, decide_True by done. by subst ok.
Qed.

Lemma rate_limit_other (st : limiters) (req : request) (now : Z)
    (l : limiter_id) (k : string) :
  aimed l k req = false →
  store_of l (limit st req now).1 !! k = store_of l st !! k.
Proof.
  intros Ht. unfold targets in Ht. unfold rate_limit.
  destruct (limiter_of (route_of req)) as [l'|] eqn:Hl; last done.
  pose proof (consume_other_key (options_of l') (store_of l' st) k (key_of req) now)
    as Hother.
  destruct (consume (options_of l') (store_of l' st) (key_of req) now) as [s ok].
  cbn [fst snd] in *. rewrite store_of_set_store.
  destruct (decide (l = l')) as [<- | Hne]; last done.
  apply Hother. intros Hk. apply limiter_of_sent_through in Hl.
  rewrite Hl, bool_decide_eq_true_2 in Ht by done. done.
Qed.

Lemma rate_limit_independent (st : limiters) (req : request) (now : Z) (l : limiter_id) :
  sent_through l req = false →
  store_of l (limit st req now).1 = store_of l st.
Proof.
  intros Hl. unfold rate_limit.
  destruct (limiter_of (route_of req)) as [l'|] eqn:Hl'; last done.
  destruct (consume _ _ _ _) as [s ok]. cbn [fst].
  rewrite store_of_set_store, decide_False; [done |].
  intros <-. apply limiter_of_sent_through in Hl'. congruence.
Qed.

Lemma verdicts_counted (rs : list (request * Z)) (st : limiters)
    (l : limiter_id) (k : string) (t0 : Z) (c : nat) :
  counted (options_of l) t0 c (store_of l st !! k) →
  (∀ req now, (req, now) ∈ rs → aimed l k req = true →
              (t0 ≤ now < t0 + windowMs (options_of l))%Z) →
  ∀ i req r, verdicts_of l k st rs !! i = Some (req, r) →
    r = if bool_decide (c + i < max (options_of l)) then mret Next
        else reject l req.
Proof.
  revert st c. induction rs as [|[req0 now0] rs IH]; intros st c Hc Hwin i req r Hi.
  { done. }
  unfold verdicts in Hi. simpl in Hi.
  destruct (limit st req0 now0) as [st' r0] eqn:Hstep.
  destruct (aimed l k req0) eqn:Ht.
  - assert (t0 ≤ now0 < t0 + windowMs (options_of l))%Z as Hnow
      by (apply (Hwin req0 now0); [left | done]).
    destruct (rate_limit_target st req0 now0 t0 l k c Ht Hc Hnow) as [Hr Hc'].
    rewrite Hstep in Hr, Hc'. cbn [fst snd] in Hr, Hc'.
    rewrite filter_cons_True in Hi by (simpl; by rewrite Ht).
    destruct i as [|i]; simpl in Hi.
    + injection Hi as <- <-. by rewrite Nat.add_0_r.
    + replace (c + S i) with (S c + i) by lia.
      apply (IH st' (S c) Hc'); last done.
      intros ?? Hin. apply Hwin. by right.
  - pose proof (rate_limit_other st req0 now0 l k Ht) as Hsame.
    rewrite Hstep in Hsame. cbn [fst] in Hsame.
    rewrite filter_cons_False in Hi by (simpl; rewrite Ht; intros []).
    apply (IH st' c); [by rewrite Hsame | | done].
    intros ?? Hin. apply Hwin. by right.
Qed.

(** C5. Take the requests that one caller key [k] sends to the routes of
    one group (the extraction routes, or the stream route) within 60
    seconds from [t0], any earlier window of [k] on that group having
    elapsed by [t0], interleaved at will with other requests.  The first
    20 of them on the extraction routes, the first 25 on the stream
    route, go on; every later one, the next one first, is answered by
    the limiter with status 429 and goes no further.  A request to a
    route outside the group leaves the group's counts as they were. *)
Theorem limiter_threshold (st : limiters) (rs : list (request * Z))
    (l : limiter_id) (k : string) (t0 : Z) :
  (∀ b, store_of l st !! k = Some b → (windowStart b + 60000 ≤ t0)%Z) →
  (∀ req now, (req, now) ∈ rs → sent_through l req = true → key_of req = k →
              (t0 ≤ now < t0 + 60000)%Z) →
  let cap := match l with LApi => 20 | LStream => 25 end in
  (∀ i req r, verdicts_of l k st rs !! i = Some (req, r) →
     (i < cap → r = mret Next)
     ∧ (cap ≤ i →
        r = reject l req
        ∧ ∃ e, r = ([e], Returns Done) ∧ status_of e = Some 429%Z))
  ∧ (∀ req now, sent_through l req = false →
                store_of l (limit st req now).1 = store_of l st).
Proof.
  intros Hstale Hwin cap.
  assert (windowMs (options_of l) = 60000%Z) as HW by by destruct l.
  assert (max (options_of l) = cap) as Hcap by by destruct l.
  split; [| intros req now; apply rate_limit_independent].
  intros i req r Hi.
  assert (counted (options_of l) t0 0 (store_of l st !! k)) as Hc.
  { unfold counted. destruct (store_of l st !! k) as [b|] eqn:Hb; [| done].
    left. split; [done |]. rewrite HW. by apply Hstale. }
  assert (∀ req now, (req, now) ∈ rs → aimed l k req = true →
            (t0 ≤ now < t0 + windowMs (options_of l))%Z) as Hwin'.
  { intros req' now' Hin [Hs Hk]%andb_prop. rewrite HW.
    apply (Hwin req' now' Hin Hs). by apply bool_decide_eq_true_1 in Hk. }
  pose proof (verdicts_counted rs st l k t0 0 Hc Hwin' i req r Hi) as Hr.
  rewrite Hcap in Hr. simpl in Hr. split.
  - intros Hlt. by rewrite bool_decide_eq_true_2 in Hr.
  - intros Hge. rewrite bool_decide_eq_false_2 in Hr by lia.
    split; first done. rewrite Hr. apply limit_handler_429.
Qed.

End RateLimitFacts.

(** ** The properties at sample requests *)


Lemma probe_short_circuit_witness :
  well_shaped probe_request
  ∧ qtruthy (query_get probe_request "p") = true
  ∧ api_stream verify_accepts stream_ok probe_request
    = ([ResStatusJson 200 [("status", "continue")]], Returns tt).
Proof.
  assert (well_shaped probe_request) as Hshape by (apply shape_gate_true; reflexivity).
  assert (qtruthy (query_get probe_request "p") = true) as Hp by reflexivity.
  split_and!; [exact Hshape | exact Hp |].
  exact (proj1 (probe_short_circuit verify_accepts stream_ok probe_request Hshape Hp)).
Defined.

Lemma failure_status_forwarded_witness :
  well_shaped token_request
  ∧ api_stream verify_rejects stream_ok token_request
    = ([CallVerifyStream sample_id sample_sig sample_exp sample_sec sample_iv;
        ResSendStatus (Some 401%Z)], Returns tt)
  ∧ sendStatus_body sample_message 401 ≠ "".
Proof.
  assert (well_shaped token_request) as Hshape by (apply shape_gate_true; reflexivity).
  split; [exact Hshape |].
  refine (proj1 (failure_status_forwarded verify_rejects stream_ok sample_message
                   token_request (failure 401) Hshape eq_refl eq_refl eq_refl)
            401%Z eq_refl _).
  lia.
Defined.

(** C7 as it is worded fails twice.  A failure whose status cannot be
    sent (1000 here) is not forwarded: the connection is destroyed and
    no status goes out.  And a failure that is forwarded (401 here) is
    not sent without a body: [res.sendStatus] passes the status text on
    as the body, and that text is not empty for any table of texts. *)
Lemma failure_status_not_always_forwarded :
  (well_shaped token_request
   ∧ verify_out_of_range sample_id sample_sig sample_exp sample_sec sample_iv
     = Returns (Some (failure 1000))
   ∧ has_service (Some (failure 1000)) = false
   ∧ api_stream verify_out_of_range stream_ok token_request
     = ([CallVerifyStream sample_id sample_sig sample_exp sample_sec sample_iv; ResDestroy],
        Returns tt))
  ∧ (api_stream verify_rejects stream_ok token_request
     = ([CallVerifyStream sample_id sample_sig sample_exp sample_sec sample_iv;
         ResSendStatus (Some 401%Z)], Returns tt)
     ∧ sendStatus_body sample_message 401 = "Unauthorized"
     ∧ ¬ ∃ message, sendStatus_body message 401 = "").
Proof.
  split_and!; try reflexivity.
  - apply shape_gate_true. reflexivity.
  - intros [message Hempty]. by apply (sendStatus_body_nonempty message 401).
Qed.

Lemma collaborator_exception_destroys_witness :
  well_shaped token_request
  ∧ CallVerifyStream sample_id sample_sig sample_exp sample_sec sample_iv
      ∈ trace (api_stream verify_throws stream_ok token_request)
  ∧ last (trace (api_stream verify_throws stream_ok token_request)) = Some ResDestroy
  ∧ (∀ e, e ∈ trace (api_stream verify_throws stream_ok token_request) →
          is_response e = false).
Proof.
  assert (well_shaped token_request) as Hshape by (apply shape_gate_true; reflexivity).
  assert (CallVerifyStream sample_id sample_sig sample_exp sample_sec sample_iv
            ∈ trace (api_stream verify_throws stream_ok token_request)) as Hcall
    by (vm_compute; constructor).
  split_and!; [exact Hshape | exact Hcall | |].
  - refine (proj1 (collaborator_exception_destroys verify_throws stream_ok token_request
                     Hshape _)).
    left. exists sample_id, sample_sig, sample_exp, sample_sec, sample_iv.
    split; [exact Hcall | reflexivity].
  - refine (proj1 (proj2 (collaborator_exception_destroys verify_throws stream_ok
                            token_request Hshape _))).
    left. exists sample_id, sample_sig, sample_exp, sample_sec, sample_iv.
    split; [exact Hcall | reflexivity].
Defined.

(** C4 as it is worded fails: this caller's address is not the loopback
    address, in any of its spellings, yet the request is not answered
    with 403; the registry is consulted and the stream is dispatched. *)
Lemma suffix_address_not_forbidden :
  ip suffix_request ≠ "127.0.0.1"
  ∧ ip suffix_request ≠ "::ffff:127.0.0.1"
  ∧ ip suffix_request ≠ "::1"
  ∧ api_istream stream_ok registry_with_sample suffix_request
    = ([CallGetInternalStream (QStr sample_id);
        CallStream (Some (internal_descriptor suffix_request sample_descriptor))],
       Returns tt)
  ∧ ResSendStatus (Some 403%Z)
      ∉ trace (api_istream stream_ok registry_with_sample suffix_request).
Proof.
  split_and!; try discriminate; first reflexivity.
  assert (trace (api_istream stream_ok registry_with_sample suffix_request)
          = [CallGetInternalStream (QStr sample_id);
             CallStream (Some (internal_descriptor suffix_request sample_descriptor))])
    as -> by reflexivity.
  rewrite !not_elem_of_cons. split_and!; try discriminate. apply not_elem_of_nil.
Qed.

Lemma non_loopback_forbidden_witness :
  endsWith (ip outside_request) "127.0.0.1" = false
  ∧ api_istream stream_ok registry_with_sample outside_request
    = ([ResSendStatus (Some 403%Z)], Returns tt).
Proof.
  split; [reflexivity |].
  exact (proj1 (non_loopback_forbidden stream_ok registry_with_sample outside_request
                  eq_refl)).
Defined.


(** C3 as it is worded fails twice.  An [Accept] header with the
    charset qualifier is turned away with the accept-header message.  And
    a request with another [Accept] value is not turned away at the body
    stage when the parser skips it (here for its Content-Type): it goes
    on to the route, which answers for the content type. *)
Lemma charset_accept_rejected :
  (header charset_accept_request "Accept" = Some "application/json; charset=utf-8"
   ∧ express_json parse_ok parse_ok sample_reading charset_accept_request small_body
     = ([ResStatusJson 400 [("status", "error"); ("text", "invalid accept header")]],
        Returns Done))
  ∧ (header plain_both_request "Accept" = Some "text/plain"
     ∧ express_json parse_ok parse_ok sample_reading plain_both_request small_body
       = ([], Returns Next)
     ∧ sample_post_json match_redirects plain_both_request small_body
       = ([ResStatusJson 400 [("status", "error"); ("text", "ErrorInvalidContentType")]],
          Returns tt)).
Proof. split_and!; reflexivity. Qed.

Lemma accept_header_gate_witness :
  (sample_reading json_request small_body ≠ Skips
   ∧ header json_request "Accept" = Some "application/json"
   ∧ express_json parse_ok parse_ok sample_reading json_request small_body
     = ([CallJSONParse small_body; CallBodyDecode small_body], Returns Next))
  ∧ (sample_reading plain_accept_request small_body ≠ Skips
     ∧ header plain_accept_request "Accept" ≠ Some "application/json"
     ∧ express_json parse_ok parse_ok sample_reading plain_accept_request small_body
       = ([ResStatusJson 400 [("status", "error"); ("text", "invalid accept header")]],
          Returns Done))
  ∧ (sample_reading plain_both_request small_body = Skips
     ∧ express_json parse_ok parse_ok sample_reading plain_both_request small_body
       = ([], Returns Next)).
Proof.
  assert (sample_reading json_request small_body ≠ Skips) as Hr1
    by (vm_compute; discriminate).
  assert (sample_reading plain_accept_request small_body ≠ Skips) as Hr2
    by (vm_compute; discriminate).
  assert (header json_request "Accept" = Some "application/json") as Hj by reflexivity.
  assert (header plain_accept_request "Accept" ≠ Some "application/json") as Hp
    by (vm_compute; discriminate).
  split_and!; [exact Hr1 | exact Hj | | exact Hr2 | exact Hp | | reflexivity |].
  - refine (proj2 (proj1 (proj1 (accept_header_gate parse_ok parse_ok sample_reading
                                   json_request small_body) Hr1) Hj)
              eq_refl _ eq_refl eq_refl).
    vm_compute. lia.
  - exact (proj2 (proj1 (accept_header_gate parse_ok parse_ok sample_reading
                           plain_accept_request small_body) Hr2) Hp).
  - exact (proj2 (accept_header_gate parse_ok parse_ok sample_reading
                    plain_both_request small_body) eq_refl).
Defined.

Lemma oversized_body_rejected_witness :
  sample_reading json_request large_body = Reads
  ∧ header json_request "Accept" = Some "application/json"
  ∧ 720 < length large_body
  ∧ express_json parse_ok parse_ok sample_reading json_request large_body
    = ([ResStatusJson 400 [("status", "error"); ("text", "invalid json body")]],
       Returns Done).
Proof.
  assert (720 < length large_body) as Hlen by (vm_compute; lia).
  split_and!; [reflexivity | reflexivity | exact Hlen |].
  exact (proj1 (oversized_body_rejected parse_ok parse_ok sample_reading json_request
                  large_body eq_refl eq_refl Hlen)).
Defined.

(** C6 as it is worded fails: with the accepted [Accept] header and a
    body of 721 bytes, but a Content-Type that is not JSON, the parser
    skips the request; the body stage sends nothing and the route
    answers for the content type, not for the body. *)
Lemma oversized_body_not_read :
  header plain_type_request "Accept" = Some "application/json"
  ∧ 720 < length large_body
  ∧ express_json parse_ok parse_ok sample_reading plain_type_request large_body
    = ([], Returns Next)
  ∧ sample_post_json match_redirects plain_type_request large_body
    = ([ResStatusJson 400 [("status", "error"); ("text", "ErrorInvalidContentType")]],
       Returns tt)
  ∧ ResStatusJson 400 [("status", "error"); ("text", "invalid json body")]
      ∉ trace (sample_post_json match_redirects plain_type_request large_body).
Proof.
  split_and!; try reflexivity.
  - vm_compute. lia.
  - assert (trace (sample_post_json match_redirects plain_type_request large_body)
            = [ResStatusJson 400 [("status", "error"); ("text", "ErrorInvalidContentType")]])
      as -> by reflexivity.
    rewrite not_elem_of_cons. split; [discriminate | apply not_elem_of_nil].
Qed.

Lemma limiter_threshold_witness :
  (∀ b, store_of LApi stale_limiters !! sample_key = Some b →
        (windowStart b + 60000 ≤ 60500)%Z)
  ∧ (∀ req now, (req, now) ∈ late_burst → sent_through LApi req = true →
       keyGenerator sample_hmac sample_getIP sample_salt req = sample_key →
       (60500 ≤ now < 60500 + 60000)%Z)
  ∧ verdicts sample_hmac sample_getIP sample_languageCode sample_loc sample_salt
      LApi sample_key stale_limiters late_burst !! 19 = Some (json_request, mret Next)
  ∧ ∃ e, verdicts sample_hmac sample_getIP sample_languageCode sample_loc sample_salt
           LApi sample_key stale_limiters late_burst !! 20
         = Some (json_request, ([e], Returns Done))
         ∧ status_of e = Some 429%Z.
Proof.
  assert (∀ b, store_of LApi stale_limiters !! sample_key = Some b →
               (windowStart b + 60000 ≤ 60500)%Z) as Hstale.
  { intros b Hb. vm_compute in Hb. injection Hb as <-. vm_compute. discriminate. }
  assert (∀ req now, (req, now) ∈ late_burst → sent_through LApi req = true →
            keyGenerator sample_hmac sample_getIP sample_salt req = sample_key →
            (60500 ≤ now < 60500 + 60000)%Z) as Hwin.
  { intros req now Hin _ _. unfold late_burst in Hin. rewrite !elem_of_app in Hin.
    destruct Hin as [Hin | [Hin | Hin]].
    - apply elem_of_replicate in Hin as [Heq _]. injection Heq as _ ->. lia.
    - apply list_elem_of_singleton in Hin. injection Hin as _ ->. lia.
    - apply elem_of_replicate in Hin as [Heq _]. injection Heq as _ ->. lia. }
  destruct (limiter_threshold sample_hmac sample_getIP sample_languageCode sample_loc
              sample_salt stale_limiters late_burst LApi sample_key 60500 Hstale Hwin)
    as (Hverdict & _).
  split_and!; [exact Hstale | exact Hwin | |].
  - assert (∃ r, verdicts sample_hmac sample_getIP sample_languageCode sample_loc
                   sample_salt LApi sample_key stale_limiters late_burst !! 19
                 = Some (json_request, r)) as [r Hr] by (eexists; vm_compute; reflexivity).
    rewrite Hr. f_equal. f_equal.
    apply (proj1 (Hverdict 19 json_request r Hr)). lia.
  - assert (∃ r, verdicts sample_hmac sample_getIP sample_languageCode sample_loc
                   sample_salt LApi sample_key stale_limiters late_burst !! 20
                 = Some (json_request, r)) as [r Hr] by (eexists; vm_compute; reflexivity).
    destruct (proj2 (Hverdict 20 json_request r Hr)) as (_ & e & He & Hst).
    { lia. }
    exists e. split; [| exact Hst]. rewrite <- He. exact Hr.
Defined.

(** * Further properties *)

(** ** The signed stream route, run by run *)

Section StreamRouteRuns.

Variable verifyStream : string → string → string → string → string →
  outcome (option streamInfo).
Variable stream : option streamInfo → outcome unit.
Variable getInternalStream : qval → outcome (option streamInfo).

#[local] Arguments has_service : simpl never.

Lemma api_stream_run (req : request) :
  stream_run verifyStream stream req (api_stream verifyStream stream req).
Proof.
  rewrite api_stream_gate.
  destruct (shape_gate req) eqn:Hgate; [| by constructor].
  destruct (qtruthy (query_get req "p")) eqn:Hp; [by constructor |].
  eapply run_checked; [done | done | reflexivity |]. cbv zeta.
  destruct (verifyStream _ _ _ _ _) as [[info|]|]; [| reflexivity..].
  cbn. destruct (has_service (Some info)).
  - cbn. by destruct (stream (Some info)) as [[]|].
  - cbn. unfold res_sendStatus. by destruct (status_valid (status info)).
Qed.

Lemma api_istream_run (req : request) :
  istream_run stream getInternalStream req (api_istream stream getInternalStream req).
Proof.
  unfold api_istream.
  destruct (endsWith (ip req) "127.0.0.1") eqn:Hip; [| by constructor].
  destruct (Nat.eqb_spec (String.length (JsString (query_get req "id"))) 21) as [Hlen | Hlen];
    [| by constructor].
  eapply irun_lookup; [done | done |]. cbv zeta.
  destruct (getInternalStream _) as [[info|]|]; [| reflexivity..].
  cbn. by destruct (stream _) as [[]|].
Qed.

(** Case analysis on the run of a handler. *)
Ltac by_stream_run req :=
  generalize (api_stream_run req);
  generalize (api_stream verifyStream stream req);
  let r := fresh "r" in let Hrun := fresh "Hrun" in
  intros r Hrun; destruct Hrun as [Rgate | Rgate Rp | v r Rgate Rp Rv ->].

Ltac by_istream_run req :=
  generalize (api_istream_run req);
  generalize (api_istream stream getInternalStream req);
  let r := fresh "r" in let Hrun := fresh "Hrun" in
  intros r Hrun; destruct Hrun as [Rip | Rip Rlen | r Rip Rlen ->].


(** X2. [stream] is only ever given what [verifyStream] returned for the
    five fields of this very request, and only when that result carries a
    non-empty [service]: nothing is streamed for a probe, a malformed
    token or a rejected one. *)
Theorem stream_only_after_verification (req : request) (info : option streamInfo) :
  CallStream info ∈ trace (api_stream verifyStream stream req) →
  well_shaped req
  ∧ qtruthy (query_get req "p") = false
  ∧ verifyStream (JsString (query_get req "id")) (JsString (query_get req "sig"))
                 (JsString (query_get req "exp")) (JsString (query_get req "sec"))
                 (JsString (query_get req "iv")) = Returns info
  ∧ has_service info = true.
Proof.
  by_stream_run req; cbn.
  - intros Hin. by apply list_elem_of_singleton in Hin.
  - intros Hin. by apply list_elem_of_singleton in Hin.
  - apply shape_gate_true in Rgate.
    destruct v as [[info'|]|]; cbn;
      try (rewrite !elem_of_cons, elem_of_nil; intros [Hin | [Hin | []]]; discriminate).
    destruct (has_service (Some info')) eqn:Hsvc;
      [destruct (stream (Some info')) as [[]|] | destruct (status_valid (status info'))];
      cbn;
      rewrite !elem_of_cons, elem_of_nil; intros Hin;
      repeat (destruct Hin as [Hin | Hin]; try discriminate); try done;
      injection Hin as ->; done.
Qed.

(** X3. [verifyStream] is called exactly when the token is well shaped
    and no probe is asked for, and then on the texts of [id], [sig],
    [exp], [sec], [iv] in that order. *)
Theorem verify_called_iff (req : request) (id sig exp sec iv : string) :
  CallVerifyStream id sig exp sec iv ∈ trace (api_stream verifyStream stream req)
  ↔ well_shaped req ∧ qtruthy (query_get req "p") = false
    ∧ id = JsString (query_get req "id") ∧ sig = JsString (query_get req "sig")
    ∧ exp = JsString (query_get req "exp") ∧ sec = JsString (query_get req "sec")
    ∧ iv = JsString (query_get req "iv").
Proof.
  by_stream_run req; cbn.
  - split.
    + intros Hin. by apply list_elem_of_singleton in Hin.
    + intros (Hshape & _). apply shape_gate_true in Hshape. congruence.
  - split.
    + intros Hin. by apply list_elem_of_singleton in Hin.
    + intros (_ & Hp' & _). congruence.
  - split.
    + intros Hin. apply shape_gate_true in Rgate.
      assert (CallVerifyStream id sig exp sec iv
              = CallVerifyStream (JsString (query_get req "id"))
                  (JsString (query_get req "sig")) (JsString (query_get req "exp"))
                  (JsString (query_get req "sec")) (JsString (query_get req "iv"))) as Heq.
      { destruct v as [[info|]|];
          [destruct (has_service (Some info));
             [destruct (stream (Some info)) as [[]|] | destruct (status_valid (status info))]
          | |];
          cbn in Hin; rewrite !elem_of_cons, elem_of_nil in Hin;
          repeat (destruct Hin as [Hin | Hin]; try discriminate); done. }
      injection Heq as -> -> -> -> ->. done.
    + intros (_ & _ & -> & -> & -> & -> & ->).
      destruct v as [[info|]|];
        [destruct (has_service (Some info));
           [destruct (stream (Some info)) as [[]|] | destruct (status_valid (status info))]
        | |];
        cbn; apply list_elem_of_here.
Qed.

(** X4. When [verifyStream] returns a nullish value, reading
    [streamInfo.status] throws inside the [try]: the connection is
    destroyed, no status is sent and [stream] is not called. *)
Theorem nullish_verification_destroys (req : request) :
  well_shaped req →
  qtruthy (query_get req "p") = false →
  verifyStream (JsString (query_get req "id")) (JsString (query_get req "sig"))
               (JsString (query_get req "exp")) (JsString (query_get req "sec"))
               (JsString (query_get req "iv")) = Returns None →
  api_stream verifyStream stream req
  = ([CallVerifyStream (JsString (query_get req "id")) (JsString (query_get req "sig"))
        (JsString (query_get req "exp")) (JsString (query_get req "sec"))
        (JsString (query_get req "iv")); ResDestroy], Returns tt).
Proof.
  intros Hshape Hp Hv. apply shape_gate_true in Hshape.
  by_stream_run req; [congruence | congruence |].
  rewrite Rv in Hv. by subst v.
Qed.

(** X5. When the token is verified (a result with a non-empty
    [service]) and [stream] returns, the gateway calls [verifyStream]
    once, hands the very same descriptor to [stream] and sends nothing
    itself. *)
Theorem verified_stream_dispatched (req : request) (info : streamInfo) :
  well_shaped req →
  qtruthy (query_get req "p") = false →
  verifyStream (JsString (query_get req "id")) (JsString (query_get req "sig"))
               (JsString (query_get req "exp")) (JsString (query_get req "sec"))
               (JsString (query_get req "iv")) = Returns (Some info) →
  has_service (Some info) = true →
  stream (Some info) = Returns tt →
  api_stream verifyStream stream req
  = ([CallVerifyStream (JsString (query_get req "id")) (JsString (query_get req "sig"))
        (JsString (query_get req "exp")) (JsString (query_get req "sec"))
        (JsString (query_get req "iv")); CallStream (Some info)], Returns tt)
  ∧ List.filter answers (trace (api_stream verifyStream stream req)) = [].
Proof.
  intros Hshape Hp Hv Hsvc Hs. apply shape_gate_true in Hshape.
  by_stream_run req; [congruence | congruence |].
  rewrite Rv in Hv. subst v. by rewrite Hsvc, Hs.
Qed.

(** ** The internal stream route *)

(** X6. A loopback caller asking for a 21-character [id] that the
    registry does not hold gets status 404, after one lookup with the
    query value as it came; [stream] is not called. *)
Theorem internal_unknown_id_404 (req : request) :
  endsWith (ip req) "127.0.0.1" = true →
  String.length (JsString (query_get req "id")) = 21 →
  getInternalStream (query_get req "id") = Returns None →
  api_istream stream getInternalStream req
  = ([CallGetInternalStream (query_get req "id"); ResSendStatus (Some 404%Z)], Returns tt).
Proof.
  intros Hip Hlen Hnone. by_istream_run req; [congruence | done |].
  by rewrite Hnone.
Qed.

(** X7. When the registry holds the descriptor, [stream] receives it
    with [headers] replaced by the headers of this request, with its own
    [type] if it has one and [internal] otherwise, and with [service],
    [status] and the other fields untouched; the gateway sends nothing
    itself when [stream] returns. *)
Theorem internal_dispatch_descriptor (req : request) (info : streamInfo) :
  endsWith (ip req) "127.0.0.1" = true →
  String.length (JsString (query_get req "id")) = 21 →
  getInternalStream (query_get req "id") = Returns (Some info) →
  stream (Some (internal_descriptor req info)) = Returns tt →
  ∃ d, api_istream stream getInternalStream req
       = ([CallGetInternalStream (query_get req "id"); CallStream (Some d)], Returns tt)
       ∧ headers d = Some (req_headers req)
       ∧ type d = Some (default "internal" (type info))
       ∧ service d = service info ∧ status d = status info ∧ params d = params info.
Proof.
  intros Hip Hlen Hfound Hs. exists (internal_descriptor req info).
  by_istream_run req; [congruence | done |].
  rewrite Hfound. cbv zeta. rewrite Hs. split_and!; try done.
  cbn. by destruct (type info).
Qed.

(** X8. When the registry lookup or [stream] throws, the internal
    handler catches it: its last act is to destroy the connection, it
    sends no status, and it returns normally. *)
Theorem internal_exception_destroys (req : request) :
  (CallGetInternalStream (query_get req "id")
     ∈ trace (api_istream stream getInternalStream req)
   ∧ getInternalStream (query_get req "id") = Throws)
  ∨ (∃ d, CallStream d ∈ trace (api_istream stream getInternalStream req)
          ∧ stream d = Throws) →
  last (trace (api_istream stream getInternalStream req)) = Some ResDestroy
  ∧ (∀ e, e ∈ trace (api_istream stream getInternalStream req) → is_response e = false)
  ∧ snd (api_istream stream getInternalStream req) = Returns tt.
Proof.
  by_istream_run req; cbn.
  - intros [[Hin _] | (d & Hin & _)]; by apply list_elem_of_singleton in Hin.
  - intros [[Hin _] | (d & Hin & _)]; by apply list_elem_of_singleton in Hin.
  - destruct (getInternalStream (query_get req "id")) as [[info|]|] eqn:Hg.
    + cbv zeta. destruct (stream (Some (internal_descriptor req info))) as [[]|] eqn:Hs; cbn.
      * intros [[_ Hth] | (d & Hin & Hth)]; first done.
        rewrite !elem_of_cons, elem_of_nil in Hin.
        destruct Hin as [Hin | [Hin | []]]; first done.
        injection Hin as ->. congruence.
      * intros _. split_and!; try done. intros e He.
        rewrite !elem_of_cons, elem_of_nil in He.
        by destruct He as [-> | [-> | [-> | []]]].
    + cbn. intros [[_ Hth] | (d & Hin & Hth)]; first done.
      rewrite !elem_of_cons, elem_of_nil in Hin.
      by destruct Hin as [Hin | [Hin | []]].
    + cbn. intros _. split_and!; try done. intros e He.
      rewrite !elem_of_cons, elem_of_nil in He.
      by destruct He as [-> | [-> | []]].
Qed.

(** X9. The registry is consulted exactly when the caller's address
    ends in [127.0.0.1] and the text of [id] has 21 characters, and it is
    then given the query value itself, not its text. *)
Theorem registry_consulted_iff (req : request) (v : qval) :
  CallGetInternalStream v ∈ trace (api_istream stream getInternalStream req)
  ↔ endsWith (ip req) "127.0.0.1" = true
    ∧ String.length (JsString (query_get req "id")) = 21
    ∧ v = query_get req "id".
Proof.
  by_istream_run req; cbn.
  - split; [intros Hin; by apply list_elem_of_singleton in Hin | intros (? & _); congruence].
  - split; [intros Hin; by apply list_elem_of_singleton in Hin | intros (_ & ? & _); done].
  - split.
    + intros Hin. split_and!; try done.
      destruct (getInternalStream (query_get req "id")) as [[info|]|];
        [cbv zeta in Hin; destruct (stream _) as [[]|] | |];
        cbn in Hin; rewrite !elem_of_cons, elem_of_nil in Hin;
        repeat (destruct Hin as [Hin | Hin]; try discriminate); try done;
        by injection Hin.
    + intros (_ & _ & ->).
      destruct (getInternalStream (query_get req "id")) as [[info|]|];
        [cbv zeta; destruct (stream _) as [[]|] | |]; cbn; apply list_elem_of_here.
Qed.

End StreamRouteRuns.

(** ** The loopback test *)

Lemma string_length_app (a b : string) :
  String.length (a +:+ b) = String.length a + String.length b.
Proof. induction a as [|c a IH]; simpl; [done | by rewrite IH]. Qed.

Lemma substring_whole (s : string) : String.substring 0 (String.length s) s = s.
Proof. induction s as [|c s IH]; simpl; [done | by rewrite IH]. Qed.

Lemma substring_after (pre s : string) (n : nat) :
  String.substring (String.length pre) n (pre +:+ s) = String.substring 0 n s.
Proof. induction pre as [|c pre IH]; simpl; done. Qed.

Lemma string_cut (s : string) (k : nat) :
  k ≤ String.length s →
  s = String.substring 0 k s +:+ String.substring k (String.length s - k) s.
Proof.
  revert k. induction s as [|c s IH]; intros k Hk; simpl in Hk.
  - by replace k with 0 by lia.
  - destruct k as [|k]; simpl.
    + by rewrite substring_whole.
    + transitivity (String c (String.substring 0 k s
                              +:+ String.substring k (String.length s - k) s));
        [f_equal; apply IH; lia | reflexivity].
Qed.

(** X10. [endsWith] is the suffix test: it holds exactly of the strings
    that are some text followed by the suffix.  So the internal route is
    open to every address of the form [pre ++ "127.0.0.1"]. *)
Theorem endsWith_spec (s suffix : string) :
  endsWith s suffix = true ↔ ∃ pre, s = pre +:+ suffix.
Proof.
  unfold endsWith. split.
  - remember (String.length suffix) as n eqn:Hn.
    destruct (Nat.ltb_spec (String.length s) n) as [Hlt | Hge]; first done.
    intros Heq. apply String.eqb_eq in Heq.
    exists (String.substring 0 (String.length s - n) s).
    assert (s = String.substring 0 (String.length s - n) s
                +:+ String.substring (String.length s - n)
                      (String.length s - (String.length s - n)) s) as Hcut
      by (apply string_cut; lia).
    replace (String.length s - (String.length s - n)) with n in Hcut by lia.
    by rewrite Heq in Hcut.
  - intros [pre ->]. rewrite string_length_app.
    destruct (Nat.ltb_spec (String.length pre + String.length suffix) (String.length suffix))
      as [Hlt | Hge]; first lia.
    replace (String.length pre + String.length suffix - String.length suffix)
      with (String.length pre) by lia.
    rewrite substring_after, substring_whole. apply String.eqb_refl.
Qed.

(** ** The body stage, outcome by outcome *)

Section JsonStageRuns.

Variable JSON_parse : list Byte.byte → outcome unit.
Variable body_decode : list Byte.byte → outcome unit.

(** The stage, for a body that is read, written out by the four things
    it looks at. *)
Lemma json_body_stage_cases (req : request) (buf : list Byte.byte) :
  json_body_stage JSON_parse body_decode req buf =
  if bool_decide (header req "Accept" = Some "application/json") then
    if 720 <? length buf then
      ([ResStatusJson 400 [("status", "error"); ("text", "invalid json body")]], Returns Done)
    else
      match JSON_parse buf with
      | Throws =>
          ([CallJSONParse buf;
            ResStatusJson 400 [("status", "error"); ("text", "invalid json body")]],
           Returns Done)
      | Returns _ =>
          match body_decode buf with
          | Throws =>
              ([CallJSONParse buf; CallBodyDecode buf;
                ResStatusJson 400 [("status", "error"); ("text", "invalid json body")]],
               Returns Done)
          | Returns _ => ([CallJSONParse buf; CallBodyDecode buf], Returns Next)
          end
      end
  else
    ([ResStatusJson 400 [("status", "error"); ("text", "invalid accept header")]],
     Returns Done).
Proof.
  unfold json_body_stage, json_error_handler, verify. rewrite accept_test.
  case_bool_decide; [| reflexivity].
  destruct (720 <? length buf); [reflexivity |].
  destruct (JSON_parse buf) as [[]|]; [| reflexivity].
  by destruct (body_decode buf) as [[]|].
Qed.

(** X11. The body stage never throws.  Either it passes the request on
    and has sent nothing, or it is done and has sent exactly one
    response, with status 400 and one of the two error texts. *)
Theorem json_stage_outcomes (req : request) (buf : list Byte.byte) :
  (snd (json_body_stage JSON_parse body_decode req buf) = Returns Next
   ∧ List.filter is_response (trace (json_body_stage JSON_parse body_decode req buf)) = [])
  ∨ (snd (json_body_stage JSON_parse body_decode req buf) = Returns Done
     ∧ ∃ text, List.filter is_response
                 (trace (json_body_stage JSON_parse body_decode req buf))
               = [ResStatusJson 400 [("status", "error"); ("text", text)]]
               ∧ (text = "invalid json body" ∨ text = "invalid accept header")).
Proof.
  rewrite json_body_stage_cases.
  case_bool_decide; [| right; split; [done | eexists; split; [reflexivity | by right]]].
  destruct (720 <? length buf);
    [right; split; [done | eexists; split; [reflexivity | by left]] |].
  destruct (JSON_parse buf) as [[]|];
    [| right; split; [done | eexists; split; [reflexivity | by left]]].
  destruct (body_decode buf) as [[]|];
    [by left | right; split; [done | eexists; split; [reflexivity | by left]]].
Qed.

Variable reading_of : request → list Byte.byte → reading.

(** X12. The body parser and the error middleware let a request go on to
    the route in two cases only: the parser skips the request; or it
    reads the body, [Accept] is [application/json], the raw body has at
    most 720 bytes (720 itself is allowed), [JSON.parse] accepts it and
    so does the parser's own decoding. *)
Theorem json_stage_passes_iff (req : request) (buf : list Byte.byte) :
  snd (express_json JSON_parse body_decode reading_of req buf) = Returns Next
  ↔ reading_of req buf = Skips
    ∨ (reading_of req buf = Reads
       ∧ header req "Accept" = Some "application/json"
       ∧ length buf ≤ 720
       ∧ JSON_parse buf = Returns tt
       ∧ body_decode buf = Returns tt).
Proof.
  unfold express_json. destruct (reading_of req buf).
  - split; [by left | done].
  - unfold json_error_handler. cbn [orb].
    split; [done | by intros [? | [? _]]].
  - rewrite json_body_stage_cases. case_bool_decide as Hacc.
    + destruct (Nat.ltb_spec 720 (length buf)) as [Hlen | Hlen].
      { split; [done | intros [? | (_ & _ & ? & _)]; [done | lia]]. }
      destruct (JSON_parse buf) as [[]|];
        [| split; [done | by intros [? | (_ & _ & _ & ? & _)]]].
      destruct (body_decode buf) as [[]|];
        [split; [by right | done] | split; [done | by intros [? | (_ & _ & _ & _ & ?)]]].
    + split; [done | by intros [? | (_ & ? & _)]].
Qed.

(** X13. The body is looked at in order: [JSON.parse] runs in the hook
    only for an accepted [Accept] header and a body of at most 720
    bytes, and the body parser decodes only a body that [JSON.parse] has
    accepted. *)
Theorem body_read_in_order (req : request) (buf buf' : list Byte.byte) :
  (CallJSONParse buf' ∈ trace (json_body_stage JSON_parse body_decode req buf) →
     buf' = buf ∧ header req "Accept" = Some "application/json" ∧ length buf ≤ 720)
  ∧ (CallBodyDecode buf' ∈ trace (json_body_stage JSON_parse body_decode req buf) →
     buf' = buf ∧ CallJSONParse buf ∈ trace (json_body_stage JSON_parse body_decode req buf)
     ∧ JSON_parse buf = Returns tt).
Proof.
  rewrite json_body_stage_cases. case_bool_decide as Hacc.
  - destruct (Nat.ltb_spec 720 (length buf)) as [Hlen | Hlen].
    { split; intros Hin; by apply list_elem_of_singleton in Hin. }
    destruct (JSON_parse buf) as [[]|]; [destruct (body_decode buf) as [[]|] |]; cbn;
      (split; intros Hin; rewrite !elem_of_cons, elem_of_nil in Hin;
       repeat (destruct Hin as [Hin | Hin]; try discriminate); try done;
       injection Hin as ->; split_and!; try done; apply list_elem_of_here).
  - split; intros Hin; by apply list_elem_of_singleton in Hin.
Qed.

End JsonStageRuns.

(** ** The path decoding guard *)

Lemma decode_guard_plain_char (c : ascii) (s : string) :
  Ascii.eqb c "%" = false → decode_guard (String c s) = decode_guard s.
Proof.
  intros Hc. unfold decode_guard, decodeURIComponent. simpl. rewrite Hc.
  by destruct (Decode s None).
Qed.

Lemma decode_guard_plain_prefix (pre s : string) :
  no_percent pre = true → decode_guard (pre +:+ s) = decode_guard s.
Proof.
  induction pre as [|c pre IH]; simpl; first done.
  intros [Hc Hpre]%andb_prop. apply negb_true_iff in Hc.
  change (String c pre +:+ s) with (String c (pre +:+ s)).
  rewrite decode_guard_plain_char by done. by apply IH.
Qed.

Lemma string_app_empty (s : string) : s +:+ "" = s.
Proof.
  induction s as [|c s IH]; first done.
  change (String c s +:+ "") with (String c (s +:+ "")). by rewrite IH.
Qed.

(** X14. A path without a percent sign always goes on to the routes. *)
Theorem plain_path_passes (path : string) :
  no_percent path = true → decode_guard path = GuardNext.
Proof.
  intros Hplain. rewrite <- (string_app_empty path).
  by rewrite decode_guard_plain_prefix.
Qed.

(** X15. The verdict of the guard on a path that reaches it: when the
    first percent sign of the path is not followed by two hexadecimal
    digits, the guard redirects to [/] and does not call [next()],
    whatever comes after. *)
Theorem broken_escape_redirects (pre rest : string) :
  no_percent pre = true →
  starts_with_octet rest = false →
  decode_guard (pre +:+ String "%" rest) = GuardRedirect "/".
Proof.
  intros Hpre Hrest. rewrite decode_guard_plain_prefix by done.
  unfold decode_guard, decodeURIComponent. simpl.
  destruct rest as [|h1 [|h2 rest]]; try done.
  simpl in Hrest. by destruct (hex_octet h1 h2).
Qed.

(** X16. An escape of an octet below 128 is transparent to the guard:
    after plain characters and such an escape, the path passes exactly
    when the rest of it does. *)
Theorem ascii_escape_transparent (pre rest : string) (h1 h2 : ascii) (B : Z) :
  no_percent pre = true →
  hex_octet h1 h2 = Some B →
  (B < 128)%Z →
  decode_guard (pre +:+ String "%" (String h1 (String h2 rest))) = decode_guard rest.
Proof.
  intros Hpre Hoct HB. rewrite decode_guard_plain_prefix by done.
  unfold decode_guard, decodeURIComponent. simpl. rewrite Hoct.
  unfold leading_ones. apply Z.ltb_lt in HB. rewrite HB.
  by destruct (Decode rest None).
Qed.

(** X17. The verdict of the guard on a path that reaches it: an escaped
    octet that cannot open a UTF-8 sequence (a continuation octet
    128..191, or 248 and above) where a character is expected makes the
    guard redirect to [/]. *)
Theorem stray_octet_redirects (pre rest : string) (h1 h2 : ascii) (B : Z) :
  no_percent pre = true →
  hex_octet h1 h2 = Some B →
  (128 ≤ B < 192 ∨ 248 ≤ B)%Z →
  decode_guard (pre +:+ String "%" (String h1 (String h2 rest))) = GuardRedirect "/".
Proof.
  intros Hpre Hoct HB. rewrite decode_guard_plain_prefix by done.
  unfold decode_guard, decodeURIComponent. simpl. rewrite Hoct.
  unfold leading_ones.
  repeat match goal with
         | |- context [(B <? ?k)%Z] => destruct (Z.ltb_spec B k); try lia
         end; done.
Qed.

(** ** The extraction handler *)

Section ExtractionRouteFacts.

Variable body : Type.
Variable url_truthy : body → bool.
Variable dubLang_truthy : body → bool.
Variable set_dubLang : body → option string → body.
Variable languageCode : request → string.
Variable loc : string → string → string.
Variable createResponse : string → string → Z * json.
Variable normalized : Type.
Variable verifyRequest : body → option normalized.
Variable normalized_url : normalized → string.
Variable parsed : Type.
Variable host : Type.
Variable pattern : Type.
Variable extract : string → option parsed.
Variable parsed_host : parsed → host.
Variable parsed_patternMatch : parsed → pattern.
Variable JSON_parse : list Byte.byte → outcome unit.
Variable body_decode : list Byte.byte → outcome unit.
Variable decoded : list Byte.byte → body.

Local Notation handler m :=
  (api_json body url_truthy dubLang_truthy set_dubLang languageCode loc createResponse
     normalized verifyRequest normalized_url parsed host pattern extract parsed_host
     parsed_patternMatch m).
Local Notation route m :=
  (json_route body url_truthy dubLang_truthy set_dubLang languageCode loc createResponse
     normalized verifyRequest normalized_url parsed host pattern extract parsed_host
     parsed_patternMatch m JSON_parse body_decode decoded).
Local Notation failure_of lang t := (fail loc createResponse lang t).

(** The request as [verifyRequest] receives it. *)
Local Notation dubbed req b :=
  (set_dubLang b (if dubLang_truthy b then Some (languageCode req) else None)).

Lemma fail_answers (lang t : string) :
  failure_of lang t
  = ([ResStatusJson (createResponse "error" (loc lang t)).1
        (createResponse "error" (loc lang t)).2], Returns tt).
Proof. unfold fail. by destruct (createResponse _ _). Qed.

(** X18. The extraction handler answers every request exactly once with
    a status and a JSON body and never throws, also when the extractor
    does. *)
Theorem api_json_answers_once
    (match_ : host → pattern → string → normalized → outcome (Z * json))
    (req : request) (b : body) :
  ∃ code answer, handler match_ req b = ([ResStatusJson code answer], Returns tt).
Proof.
  unfold api_json. rewrite !fail_answers.
  destruct (negb (acceptRegex_test _)); [by eauto |].
  destruct (negb (url_truthy b)); [by eauto |].
  destruct (verifyRequest _) as [n|]; [| by eauto].
  destruct (extract _) as [p|]; [| by eauto].
  destruct (match_ _ _ _ _) as [[code answer]|]; cbn;
    [unfold res_status_json_checked; destruct (status_valid (Some code)); cbn |];
    by eauto.
Qed.

(** X19. The gates are tried in a fixed order and the first one that
    fails decides the error: content type, then [url], then
    [verifyRequest], then [extract]. *)
Theorem api_json_gate_order
    (match_ : host → pattern → string → normalized → outcome (Z * json))
    (req : request) (b : body) :
  let lang := languageCode req in
  (content_type_ok req = false → handler match_ req b = failure_of lang "ErrorInvalidContentType")
  ∧ (content_type_ok req = true → url_truthy b = false →
     handler match_ req b = failure_of lang "ErrorNoLink")
  ∧ (content_type_ok req = true → url_truthy b = true →
     verifyRequest (dubbed req b) = None →
     handler match_ req b = failure_of lang "ErrorCantProcess")
  ∧ (∀ n, content_type_ok req = true → url_truthy b = true →
          verifyRequest (dubbed req b) = Some n →
          extract (normalized_url n) = None →
          handler match_ req b = failure_of lang "ErrorUnsupported").
Proof.
  unfold content_type_ok, api_json. cbv zeta. split_and!.
  - by intros ->.
  - by intros -> ->.
  - by intros -> -> ->.
  - intros n -> -> -> Hx. cbn. by rewrite Hx.
Qed.

(** X20. Once every gate is passed, an extractor that returns a status
    from 100 to 999 has that status and its body sent as they are; one
    that throws, or whose status cannot be sent, is answered with the
    generic error of [createResponse]. *)
Theorem api_json_extractor_result
    (match_ : host → pattern → string → normalized → outcome (Z * json))
    (req : request) (b : body) (n : normalized) (p : parsed) :
  content_type_ok req = true →
  url_truthy b = true →
  verifyRequest (dubbed req b) = Some n →
  extract (normalized_url n) = Some p →
  handler match_ req b
  = match match_ (parsed_host p) (parsed_patternMatch p) (languageCode req) n with
    | Returns result =>
        if (100 <=? result.1)%Z && (result.1 <=? 999)%Z
        then ([ResStatusJson result.1 result.2], Returns tt)
        else failure_of (languageCode req) "ErrorSomethingWentWrong"
    | Throws => failure_of (languageCode req) "ErrorSomethingWentWrong"
    end.
Proof.
  unfold content_type_ok, api_json. intros -> -> Hn Hp. cbn. rewrite Hn, Hp.
  rewrite fail_answers. destruct (match_ _ _ _ _) as [[code answer]|]; [| done].
  cbn. unfold res_status_json_checked, status_valid.
  by destruct ((100 <=? code)%Z && (code <=? 999)%Z).
Qed.

(** X21. The extractor can change the answer of the route only for a
    request that passed every gate before it: the [Accept] header, the
    size limit, both parses, the content type, the [url] field,
    [verifyRequest] and [extract]. *)
Theorem extractor_reached_only_through_gates
    (match1 match2 : host → pattern → string → normalized → outcome (Z * json))
    (req : request) (buf : list Byte.byte) :
  route match1 req buf ≠ route match2 req buf →
  header req "Accept" = Some "application/json"
  ∧ length buf ≤ 720
  ∧ JSON_parse buf = Returns tt
  ∧ body_decode buf = Returns tt
  ∧ content_type_ok req = true
  ∧ url_truthy (decoded buf) = true
  ∧ ∃ n p, verifyRequest (dubbed req (decoded buf)) = Some n
           ∧ extract (normalized_url n) = Some p.
Proof.
  unfold json_route. rewrite json_body_stage_cases.
  case_bool_decide as Hacc; [| done].
  destruct (Nat.ltb_spec 720 (length buf)) as [Hlen | Hlen]; [done |].
  destruct (JSON_parse buf) as [[]|]; [| done].
  destruct (body_decode buf) as [[]|]; [| done].
  unfold content_type_ok, api_json. cbv zeta.
  destruct (acceptRegex_test _); [| done]. cbn [negb].
  destruct (url_truthy (decoded buf)); [| done]. cbn [negb].
  destruct (verifyRequest _) as [n|]; [| done].
  destruct (extract (normalized_url n)) as [p|] eqn:Hp; [| done].
  intros _. split_and!; try done. by exists n, p.
Qed.

(** X22. Body stage and handler together answer every request exactly
    once with a status and a JSON body, and never throw. *)
Theorem json_route_answers_once
    (match_ : host → pattern → string → normalized → outcome (Z * json))
    (req : request) (buf : list Byte.byte) :
  snd (route match_ req buf) = Returns tt
  ∧ ∃ code answer, List.filter is_response (trace (route match_ req buf))
                   = [ResStatusJson code answer].
Proof.
  unfold json_route. rewrite json_body_stage_cases.
  case_bool_decide as Hacc; [| cbn; by eauto].
  destruct (720 <? length buf); [cbn; by eauto |].
  destruct (JSON_parse buf) as [[]|]; [| cbn; by eauto].
  destruct (body_decode buf) as [[]|]; [| cbn; by eauto].
  unfold api_json. rewrite !fail_answers.
  destruct (negb (acceptRegex_test _)); [cbn; by eauto |].
  destruct (negb (url_truthy _)); [cbn; by eauto |].
  destruct (verifyRequest _) as [n|]; [| cbn; by eauto].
  destruct (extract _) as [p|]; [| cbn; by eauto].
  destruct (match_ _ _ _ _) as [[code answer]|]; cbn;
    [unfold res_status_json_checked; destruct (status_valid (Some code)); cbn |];
    by eauto.
Qed.

End ExtractionRouteFacts.

(** ** The further properties at sample requests *)

Lemma stream_only_after_verification_witness :
  CallStream (Some sample_descriptor)
    ∈ trace (api_stream verify_accepts stream_ok token_request)
  ∧ well_shaped token_request
  ∧ has_service (Some sample_descriptor) = true.
Proof.
  assert (CallStream (Some sample_descriptor)
            ∈ trace (api_stream verify_accepts stream_ok token_request)) as Hin
    by (vm_compute; repeat constructor).
  destruct (stream_only_after_verification verify_accepts stream_ok token_request
              (Some sample_descriptor) Hin) as (Hshape & _ & _ & Hsvc).
  split_and!; [exact Hin | exact Hshape | exact Hsvc].
Defined.

Lemma nullish_verification_destroys_witness :
  well_shaped token_request
  ∧ api_stream verify_nullish stream_ok token_request
    = ([CallVerifyStream sample_id sample_sig sample_exp sample_sec sample_iv; ResDestroy],
       Returns tt).
Proof.
  assert (well_shaped token_request) as Hshape by (apply shape_gate_true; reflexivity).
  split; [exact Hshape |].
  exact (nullish_verification_destroys verify_nullish stream_ok token_request
           Hshape eq_refl eq_refl).
Defined.

Lemma verified_stream_dispatched_witness :
  well_shaped token_request
  ∧ api_stream verify_accepts stream_ok token_request
    = ([CallVerifyStream sample_id sample_sig sample_exp sample_sec sample_iv;
        CallStream (Some sample_descriptor)], Returns tt).
Proof.
  assert (well_shaped token_request) as Hshape by (apply shape_gate_true; reflexivity).
  split; [exact Hshape |].
  exact (proj1 (verified_stream_dispatched verify_accepts stream_ok token_request
                  sample_descriptor Hshape eq_refl eq_refl eq_refl eq_refl)).
Defined.

Lemma internal_unknown_id_404_witness :
  endsWith (ip loopback_request) "127.0.0.1" = true
  ∧ api_istream stream_ok registry_empty loopback_request
    = ([CallGetInternalStream (QStr sample_id); ResSendStatus (Some 404%Z)], Returns tt).
Proof.
  split; [reflexivity |].
  exact (internal_unknown_id_404 stream_ok registry_empty loopback_request
           eq_refl eq_refl eq_refl).
Defined.

Lemma internal_dispatch_descriptor_witness :
  endsWith (ip loopback_request) "127.0.0.1" = true
  ∧ ∃ d, api_istream stream_ok registry_with_sample loopback_request
         = ([CallGetInternalStream (QStr sample_id); CallStream (Some d)], Returns tt)
         ∧ headers d = Some (req_headers loopback_request)
         ∧ type d = Some "internal"
         ∧ service d = Some "youtube".
Proof.
  split; [reflexivity |].
  destruct (internal_dispatch_descriptor stream_ok registry_with_sample loopback_request
              sample_descriptor eq_refl eq_refl eq_refl eq_refl)
    as (d & Heq & Hh & Ht & Hs & _).
  exists d. split_and!; [exact Heq | exact Hh | exact Ht | exact Hs].
Defined.

Lemma internal_exception_destroys_witness :
  (CallGetInternalStream (query_get loopback_request "id")
     ∈ trace (api_istream stream_ok registry_throws loopback_request)
   ∧ registry_throws (query_get loopback_request "id") = Throws)
  ∧ last (trace (api_istream stream_ok registry_throws loopback_request)) = Some ResDestroy.
Proof.
  assert (CallGetInternalStream (query_get loopback_request "id")
            ∈ trace (api_istream stream_ok registry_throws loopback_request)) as Hin
    by (vm_compute; repeat constructor).
  split; [exact (conj Hin eq_refl) |].
  exact (proj1 (internal_exception_destroys stream_ok registry_throws loopback_request
                  (or_introl (conj Hin eq_refl)))).
Defined.

Lemma plain_path_passes_witness :
  no_percent "/api/json" = true ∧ decode_guard "/api/json" = GuardNext.
Proof. split; [reflexivity | exact (plain_path_passes "/api/json" eq_refl)]. Defined.

Lemma broken_escape_redirects_witness :
  no_percent "/watch" = true
  ∧ starts_with_octet "ZZ" = false
  ∧ decode_guard "/watch%ZZ" = GuardRedirect "/".
Proof.
  split_and!; [reflexivity | reflexivity |].
  exact (broken_escape_redirects "/watch" "ZZ" eq_refl eq_refl).
Defined.

Lemma ascii_escape_transparent_witness :
  no_percent "/a" = true
  ∧ hex_octet "2" "0" = Some 32%Z
  ∧ decode_guard "/a%20b" = decode_guard "b".
Proof.
  split_and!; [reflexivity | reflexivity |].
  refine (ascii_escape_transparent "/a" "b" "2" "0" 32 eq_refl eq_refl _). lia.
Defined.

Lemma stray_octet_redirects_witness :
  no_percent "/a" = true
  ∧ hex_octet "8" "0" = Some 128%Z
  ∧ decode_guard "/a%80b" = GuardRedirect "/".
Proof.
  split_and!; [reflexivity | reflexivity |].
  refine (stray_octet_redirects "/a" "b" "8" "0" 128 eq_refl eq_refl _). lia.
Defined.

Lemma api_json_extractor_result_witness :
  content_type_ok json_request = true
  ∧ sample_api_json match_throws json_request (sample_decoded small_body)
    = ([ResStatusJson 400 [("status", "error"); ("text", "ErrorSomethingWentWrong")]],
       Returns tt)
  ∧ sample_api_json match_redirects json_request (sample_decoded small_body)
    = ([ResStatusJson 200 [("status", "redirect"); ("url", "https://example.org/watch")]],
       Returns tt)
  ∧ sample_api_json match_out_of_range json_request (sample_decoded small_body)
    = ([ResStatusJson 400 [("status", "error"); ("text", "ErrorSomethingWentWrong")]],
       Returns tt).
Proof.
  split_and!; [reflexivity | | | reflexivity].
  - exact (api_json_extractor_result sample_body sample_url_truthy sample_dubLang_truthy
             sample_set_dubLang sample_languageCode sample_loc sample_createResponse
             sample_body sample_verifyRequest sb_url string string string sample_extract
             id id match_throws json_request (sample_decoded small_body)
             (sample_decoded small_body) "https://example.org/watch"
             eq_refl eq_refl eq_refl eq_refl).
  - exact (api_json_extractor_result sample_body sample_url_truthy sample_dubLang_truthy
             sample_set_dubLang sample_languageCode sample_loc sample_createResponse
             sample_body sample_verifyRequest sb_url string string string sample_extract
             id id match_redirects json_request (sample_decoded small_body)
             (sample_decoded small_body) "https://example.org/watch"
             eq_refl eq_refl eq_refl eq_refl).
Defined.

Lemma extractor_reached_only_through_gates_witness :
  sample_json_route match_throws json_request small_body
    ≠ sample_json_route match_redirects json_request small_body
  ∧ header json_request "Accept" = Some "application/json"
  ∧ content_type_ok json_request = true.
Proof.
  assert (sample_json_route match_throws json_request small_body
          ≠ sample_json_route match_redirects json_request small_body) as Hne
    by (vm_compute; discriminate).
  destruct (extractor_reached_only_through_gates sample_body sample_url_truthy
              sample_dubLang_truthy sample_set_dubLang sample_languageCode sample_loc
              sample_createResponse sample_body sample_verifyRequest sb_url string string
              string sample_extract id id parse_ok parse_ok sample_decoded
              match_throws match_redirects json_request small_body Hne)
    as (Hacc & _ & _ & _ & Hct & _).
  split_and!; [exact Hne | exact Hacc | exact Hct].
Defined.
